(** * SPARE: the HyperConv layer, the drugs.com scraping scripts and the TSUI exporter

    A shallow embedding of three source files of the repository:

    - [src/gen_tsui_c5.py]                    (module [Tsui]),
    - [src/models/hyperconv.py]               (module [HyperConvModel]),
    - [src/postProcessing/drugsComMatching.py] (module [DrugsCom]).

    Python strings are [string]s, dictionaries are [gmap]s (or association
    lists where the iteration order is observable), exceptions are the
    [Raise] results of a small error monad, and the files a script writes are
    the strings it has written so far. *)

From Stdlib Require Import ZArith Ascii String List Lia.
From stdpp Require Import base option list strings gmap pretty.

Local Open Scope string_scope.

(** ** Python values shared by the three scripts *)

Module Py.

(** The exceptions the modelled code can raise. [EnvError] stands for any
    exception coming from outside the script (browser, network, parser). *)
Inductive exn : Type :=
  | IndexError
  | KeyError
  | TypeError
  | ValueError
  | NameError
  | AssertionError
  | EnvError.

(** The result of a statement: a value, or a raised exception. *)
Inductive result (A : Type) : Type :=
  | Ok (a : A)
  | Raise (e : exn).
Arguments Ok {A} a.
Arguments Raise {A} e.

#[export] Instance result_ret : MRet result := fun _ a => Ok a.
#[export] Instance result_bind : MBind result := fun _ _ f m =>
  match m with
  | Ok a => f a
  | Raise e => Raise e
  end.

#[export] Instance result_fmap : FMap result := fun _ _ f m =>
  match m with
  | Ok a => Ok (f a)
  | Raise e => Raise e
  end.

Definition is_ok {A} (r : result A) : bool :=
  match r with Ok _ => true | Raise _ => false end.

(** [l[i]] for a list and a non-negative literal index. *)
Definition getitem {A} (l : list A) (i : nat) : result A :=
  match l !! i with
  | Some a => Ok a
  | None => Raise IndexError
  end.

Definition nl : string := String (ascii_of_nat 10) "".

(** ASCII white space, as [str.strip] removes it. *)
Definition is_space (c : ascii) : bool :=
  let n := nat_of_ascii c in
  ((n =? 32) || ((9 <=? n) && (n <=? 13)) || ((28 <=? n) && (n <=? 31)))%nat.

Fixpoint lstrip (s : string) : string :=
  match s with
  | String c s' => if is_space c then lstrip s' else s
  | EmptyString => EmptyString
  end.

Definition rstrip (s : string) : string := String.rev (lstrip (String.rev s)).

Definition strip (s : string) : string := rstrip (lstrip s).

(** [s.split(sep)] for a one-character separator. *)
Fixpoint split (sep : ascii) (s : string) : list string :=
  match s with
  | EmptyString => [EmptyString]
  | String c s' =>
      if Ascii.eqb c sep then EmptyString :: split sep s'
      else match split sep s' with
           | w :: ws => String c w :: ws
           | [] => [String c EmptyString]
           end
  end.

(** [sep.join(l)]. *)
Fixpoint join (sep : string) (l : list string) : string :=
  match l with
  | [] => EmptyString
  | [x] => x
  | x :: l' => x +:+ sep +:+ join sep l'
  end.

(** [s.lower()] on ASCII letters. *)
Definition lower_ascii (c : ascii) : ascii :=
  let n := nat_of_ascii c in
  if ((65 <=? n) && (n <=? 90))%nat then ascii_of_nat (n + 32) else c.

Fixpoint lower (s : string) : string :=
  match s with
  | EmptyString => EmptyString
  | String c s' => String (lower_ascii c) (lower s')
  end.

(** [s.startswith(p)]. *)
Definition startswith (p s : string) : bool := String.prefix p s.

(** [s.index(c)] for a one-character needle: [ValueError] when absent. *)
Fixpoint find_char (c : ascii) (s : string) : option nat :=
  match s with
  | EmptyString => None
  | String c' s' => if Ascii.eqb c' c then Some 0 else S <$> find_char c s'
  end.

Definition index (c : ascii) (s : string) : result nat :=
  match find_char c s with
  | Some i => Ok i
  | None => Raise ValueError
  end.

(** [s[i:j]] for non-negative [i] and [j]. *)
Definition slice (i j : nat) (s : string) : string := String.substring i (j - i) s.

(** [s[1:-1]]. *)
Definition slice_1_m1 (s : string) : string :=
  String.substring 1 (String.length s - 2) s.

(** [needle in s]. *)
Fixpoint contains (needle s : string) : bool :=
  String.prefix needle s ||
  match s with
  | EmptyString => false
  | String _ s' => contains needle s'
  end.

(** [s.replace(c, by)] for a one-character pattern. *)
Fixpoint replace_char (c : ascii) (by_ : string) (s : string) : string :=
  match s with
  | EmptyString => EmptyString
  | String c' s' =>
      (if Ascii.eqb c' c then by_ else String c' EmptyString) +:+ replace_char c by_ s'
  end.

(** [s.split(sep)] for a separator of several characters (not empty):
    [skip] counts the characters of a separator just met that are still to
    be passed over. *)
Fixpoint split_str_go (sep : string) (skip : nat) (s : string) : list string :=
  match s with
  | EmptyString => [EmptyString]
  | String c s' =>
      match skip with
      | S k => split_str_go sep k s'
      | O =>
          if String.prefix sep s
          then EmptyString :: split_str_go sep (String.length sep - 1) s'
          else match split_str_go sep 0 s' with
               | w :: ws => String c w :: ws
               | [] => [String c EmptyString]
               end
      end
  end.

Definition split_str (sep s : string) : list string := split_str_go sep 0 s.

(** *** Facts on strings *)

Lemma app_cons_s (x : ascii) (a b : string) : String x a +:+ b = String x (a +:+ b).
Proof. reflexivity. Qed.

Lemma app_assoc_s (a b c : string) : (a +:+ b) +:+ c = a +:+ (b +:+ c).
Proof.
  induction a as [|x a IH]; [reflexivity |].
  now rewrite !app_cons_s, IH.
Qed.

Lemma app_nil_r_s (a : string) : a +:+ "" = a.
Proof.
  induction a as [|x a IH]; [reflexivity |].
  now rewrite app_cons_s, IH.
Qed.


Lemma find_char_app_r (c : ascii) (a b : string) :
  find_char c a = None →
  find_char c (a +:+ b) = (λ i, String.length a + i)%nat <$> find_char c b.
Proof.
  induction a as [|x a IH]; intros Ha.
  - change ("" +:+ b) with b. by destruct (find_char c b).
  - rewrite app_cons_s. simpl in *. destruct (Ascii.eqb x c); [done |].
    destruct (find_char c a); [done |]. rewrite IH by done.
    by destruct (find_char c b).
Qed.





(** *** Facts on [strip] and on the two [split]s *)

Lemma rev_app_acc (s acc : string) : String.rev_app s acc = String.rev_app s "" +:+ acc.
Proof.
  revert acc. induction s as [|x s IH]; intros acc; [reflexivity |].
  simpl. rewrite (IH (String x acc)), (IH (String x "")).
  by rewrite app_assoc_s.
Qed.

Lemma rev_app_s (a b : string) : String.rev (a +:+ b) = String.rev b +:+ String.rev a.
Proof.
  unfold String.rev. induction a as [|x a IH].
  - change ("" +:+ b) with b. by rewrite app_nil_r_s.
  - rewrite app_cons_s. simpl.
    rewrite (rev_app_acc (a +:+ b)), (rev_app_acc a), IH.
    by rewrite app_assoc_s.
Qed.

Lemma rev_involutive_s (s : string) : String.rev (String.rev s) = s.
Proof.
  induction s as [|x s IH]; [reflexivity |].
  change (String x s) with (String x "" +:+ s) at 1.
  by rewrite rev_app_s, rev_app_s, IH.
Qed.

Lemma length_lstrip (s : string) : (String.length (lstrip s) ≤ String.length s)%nat.
Proof.
  induction s as [|x s IH]; simpl; [lia |].
  destruct (is_space x); simpl; lia.
Qed.

Lemma lstrip_fixed_head (c : ascii) (s : string) :
  lstrip (String c s) = String c s → is_space c = false.
Proof.
  simpl. destruct (is_space c); [|done].
  intros H. pose proof (length_lstrip s) as Hl. rewrite H in Hl. simpl in Hl. lia.
Qed.

(** The content of a line that neither starts nor ends with white space is
    what [strip] leaves of the line. *)
Lemma strip_line (L : string) :
  lstrip L = L → lstrip (String.rev L) = String.rev L → strip (L +:+ nl) = L.
Proof.
  intros Hl Hr. destruct L as [|c s]; [reflexivity |].
  unfold strip, rstrip.
  assert (lstrip (String c s +:+ nl) = String c s +:+ nl) as ->.
  { rewrite app_cons_s. simpl. by rewrite (lstrip_fixed_head c s Hl). }
  rewrite rev_app_s. change (String.rev nl) with nl.
  change (nl +:+ String.rev (String c s)) with (String (ascii_of_nat 10) (String.rev (String c s))).
  change (lstrip (String (ascii_of_nat 10) (String.rev (String c s))))
    with (lstrip (String.rev (String c s))).
  by rewrite Hr, rev_involutive_s.
Qed.

Lemma split_no_sep (c : ascii) (s : string) : find_char c s = None → split c s = [s].
Proof.
  induction s as [|x s IH]; simpl; [done |].
  destruct (Ascii.eqb x c); [done |].
  destruct (find_char c s); [done |]. intros _. by rewrite IH.
Qed.


Lemma split_str_bar_none (r : string) :
  find_char "|" r = None → split_str_go "||" 0 r = [r].
Proof.
  induction r as [|x r IH]; [done |].
  cbn [find_char]. destruct (Ascii.eqb x "|") eqn:Hx; [done |].
  destruct (find_char "|" r); [done |]. intros _.
  cbn [split_str_go]. cbn [String.prefix]. 
  destruct (ascii_dec "|" x) as [<- | _]; [by rewrite Ascii.eqb_refl in Hx |].
  by rewrite IH.
Qed.

Lemma split_str_bar (k r : string) :
  find_char "|" k = None → find_char "|" r = None →
  split_str "||" (k +:+ "||" +:+ r) = [k; r].
Proof.
  intros Hk Hr. unfold split_str. induction k as [|x k IH].
  - destruct r as [|y r]; [reflexivity |].
    change (split_str_go "||" 0 ("" +:+ "||" +:+ String y r))
      with ("" :: split_str_go "||" 0 (String y r)).
    by rewrite split_str_bar_none.
  - rewrite app_cons_s. cbn [find_char] in Hk.
    destruct (Ascii.eqb x "|") eqn:Hx; [done |].
    destruct (find_char "|" k); [done |].
    cbn [split_str_go String.prefix].
    destruct (ascii_dec "|" x) as [<- | _]; [by rewrite Ascii.eqb_refl in Hx |].
    by rewrite IH.
Qed.



End Py.

(** ** [src/models/hyperconv.py] *)

Module HyperConvModel.

Local Open Scope nat_scope.

Section Layer.

(** A row of node features entering the layer ([in_channels] numbers) and a
    row leaving it ([out_channels] numbers). The arithmetic of the tensor
    element type is left open: no law of it is used. *)
Variables Tin Tout : Type.
Variable zero : Tout.
Variable add : Tout → Tout → Tout.
(** Division of a row by an edge count. *)
Variable div : Tout → nat → Tout.
(** What row [e] of a buffer allocated by [torch.empty] holds before anything
    is written to it. *)
Variable uninit : nat → Tout.
(** Lines 119-130 of [update], taken when [skip_last_weight] is off:
    optional concatenation with [x], product with [weight], [bias], optional
    normalisation. Arguments: [concat], [normalize], [x], [aggr_out]. *)
Variable last_weight : bool → bool → list Tin → list Tout → list Tout.

(** The attributes of a [HyperConv] object the forward pass reads. A
    [torch.nn.Linear] layer is the function it computes on a row. *)
Record HyperConv : Type := {
  n_type : nat;
  transforms : list (Tin → Tout);
  skip_last_weight : bool;
  concat : bool;
  normalize : bool
}.

(** [__init__]: one linear layer per relation type; [linear i] is the layer
    created for type [i]. *)
Definition __init__ (linear : nat → Tin → Tout)
    (normalize concat skip_last_weight : bool) (n_type : nat) : HyperConv :=
  {| n_type := n_type;
     transforms := linear <$> seq 0 n_type;
     skip_last_weight := skip_last_weight;
     concat := concat;
     normalize := normalize |}.

(** The default construction: [normalize=False, concat=False,
    skip_last_weight=True, n_type=5]. *)
Definition default_layer (linear : nat → Tin → Tout) : HyperConv :=
  __init__ linear false false true 5.

(** [torch.empty((n_out, out_channels))]. *)
Definition torch_empty (n_out : nat) : list Tout := uninit <$> seq 0 n_out.

(** [torch.nonzero(edge_types == i)]: the positions holding [i], ascending. *)
Definition nonzero_eq (edge_types : list nat) (i : nat) : list nat :=
  filter (λ p, edge_types !! p = Some i) (seq 0 (length edge_types)).

(** [x[source_ids[p]]] for one position; [None] is the [IndexError] of an
    index out of range. *)
Definition source_row (source_ids : list nat) (x : list Tin) (p : nat) : option Tin :=
  s ← source_ids !! p; x !! s.

(** [x_out[ids] = x_out_v]: the rows are written in the order of [ids]. *)
Fixpoint index_put (x_out : list Tout) (ids : list nat) (x_out_v : list Tout) : list Tout :=
  match ids, x_out_v with
  | p :: ids', v :: x_out_v' => index_put (<[p := v]> x_out) ids' x_out_v'
  | _, _ => x_out
  end.

(** The body of the loop of [__collect__] for the type [i] (lines 147-150). *)
Definition collect_type (self : HyperConv) (source_ids edge_types : list nat)
    (x : list Tin) (x_out : list Tout) (i : nat) : option (list Tout) :=
  let ids := nonzero_eq edge_types i in
  x_ids ← mapM (source_row source_ids x) ids;
  transform ← transforms self !! i;
  Some (index_put x_out ids (transform <$> x_ids)).

Fixpoint collect_loop (self : HyperConv) (source_ids edge_types : list nat)
    (x : list Tin) (types : list nat) (x_out : list Tout) : option (list Tout) :=
  match types with
  | [] => Some x_out
  | i :: types' =>
      x_out' ← collect_type self source_ids edge_types x x_out i;
      collect_loop self source_ids edge_types x types' x_out'
  end.

(** [__collect__]: [edge_index] is the list of the columns (source, target)
    of the [2 x num_pairs] tensor. *)
Definition __collect__ (self : HyperConv) (edge_index : list (nat * nat))
    (edge_types : list nat) (x : list Tin) : option (list Tout) :=
  let n_out := length edge_index in
  let x_out := torch_empty n_out in
  let source_ids := edge_index.*1 in
  collect_loop self source_ids edge_types x (seq 0 (n_type self)) x_out.

Definition message (x_j : list Tout) : list Tout := x_j.

Definition update (self : HyperConv) (aggr_out : list Tout) (x : list Tin) : list Tout :=
  if skip_last_weight self then aggr_out
  else last_weight (concat self) (normalize self) x aggr_out.

(** Scatter-add of the rows [src] into [dim_size] accumulators, row [e]
    going to accumulator [index[e]], in the order of the rows. *)
Definition scatter_sum {A} (plus : A → A → A) (start : A)
    (src : list A) (index : list nat) (dim_size : nat) : list A :=
  foldl (λ out '(v, m), alter (λ acc, plus acc m) v out)
        (replicate dim_size start) (zip index src).

(** Modelled from the spec: [MessagePassing.aggregate] with [aggr='mean']
    belongs to the graph-learning framework, not to the repository; the spec
    says the layer "scatters results back by destination index, and
    mean-aggregates". One output row per index up to the largest one: the sum
    of the rows sent to it divided by their number (by 1 when there is
    none). *)
Definition aggregate (inputs : list Tout) (index : list nat) : list Tout :=
  let dim_size := match index with [] => 0 | _ => S (max_list index) end in
  let out := scatter_sum add zero inputs index dim_size in
  let count := scatter_sum Nat.add 0 (replicate (length index) 1) index dim_size in
  zip_with (λ o c, div o (Nat.max c 1)) out count.

(** [propagate]; the assertion on [__get_mp_type__] holds for every
    [edge_index] that is a tensor of indices. *)
Definition propagate (self : HyperConv) (edge_index : list (nat * nat))
    (edge_types : list nat) (x : list Tin) : option (list Tout) :=
  x_out ← __collect__ self edge_index edge_types x;
  let out := message x_out in
  let out := aggregate out (edge_index.*2) in
  Some (update self out x).

Definition forward (self : HyperConv) (x : list Tin) (edge_index : list (nat * nat))
    (edge_types : list nat) : option (list Tout) :=
  propagate self edge_index edge_types x.

(** *** Vocabulary of the statements *)

(** The inputs on which no index is out of range: one type per edge, and
    every source a row of [x]. *)
Definition well_formed (edge_index : list (nat * nat)) (edge_types : list nat)
    (x : list Tin) : Prop :=
  length edge_types = length edge_index ∧ Forall (λ e, e.1 < length x) edge_index.

(** The rows of [src] sent to the accumulator [v], in their order. *)
Definition sent_to {A} (v : nat) (index : list nat) (src : list A) : list A :=
  (filter (λ p, p.1 = v) (zip index src)).*2.

(** [transforms[t]] applied to [x[s]] for an edge [(s, d)] of type [t]. *)
Definition edge_message (self : HyperConv) (x : list Tin) (edge : nat * nat * nat) : option Tout :=
  let '((s, _), t) := edge in
  transform ← transforms self !! t;
  row ← x !! s;
  Some (transform row).

(** The edges (with their types) whose target is the node [v]. *)
Definition incoming (v : nat) (edges : list (nat * nat * nat)) : list (nat * nat * nat) :=
  filter (λ edge, edge.1.2 = v) edges.

(** *** The rows [__collect__] writes *)

Lemma elem_of_nonzero_eq (edge_types : list nat) (i p : nat) :
  p ∈ nonzero_eq edge_types i ↔ edge_types !! p = Some i.
Proof.
  unfold nonzero_eq. rewrite list_elem_of_filter, elem_of_seq.
  split; [by intros [? _] |].
  intros H. split; [done |]. apply lookup_lt_Some in H. lia.
Qed.

Lemma length_index_put (x_out : list Tout) ids vals :
  length (index_put x_out ids vals) = length x_out.
Proof.
  revert x_out vals. induction ids as [|p ids IH]; intros x_out [|v vals]; simpl; try done.
  by rewrite IH, length_insert.
Qed.

Lemma index_put_lookup_notin (x_out : list Tout) ids vals e :
  e ∉ ids → index_put x_out ids vals !! e = x_out !! e.
Proof.
  revert x_out vals. induction ids as [|p ids IH]; intros x_out [|v vals] Hn; simpl; try done.
  apply not_elem_of_cons in Hn as [Hne Hn].
  rewrite IH by done. by apply list_lookup_insert_ne.
Qed.

Lemma index_put_lookup_in (R : nat → Tout → Prop) (x_out : list Tout) ids vals e :
  Forall2 R ids vals → e < length x_out → e ∈ ids →
  ∃ v, R e v ∧ index_put x_out ids vals !! e = Some v.
Proof.
  intros H. revert x_out.
  induction H as [|p v ids vals HR H IH]; intros x_out Hlt Hin;
    [by apply elem_of_nil in Hin |].
  simpl. destruct (decide (e ∈ ids)) as [Hin'|Hnin].
  - apply IH; [by rewrite length_insert | done].
  - apply elem_of_cons in Hin as [-> | ?]; [|done].
    exists v. split; [done |].
    rewrite index_put_lookup_notin by done. by apply list_lookup_insert_eq.
Qed.

(** One iteration writes the rows of the edges of type [i], and only them. *)
Lemma collect_type_rows self source_ids edge_types x x_out i T :
  transforms self !! i = Some T →
  (∀ p, edge_types !! p = Some i →
        p < length x_out ∧ is_Some (source_row source_ids x p)) →
  ∃ x_out', collect_type self source_ids edge_types x x_out i = Some x_out' ∧
    length x_out' = length x_out ∧
    ∀ e, (edge_types !! e = Some i →
            ∃ row, source_row source_ids x e = Some row ∧ x_out' !! e = Some (T row)) ∧
         (edge_types !! e ≠ Some i → x_out' !! e = x_out !! e).
Proof.
  intros HT Hok. unfold collect_type.
  assert (is_Some (mapM (source_row source_ids x) (nonzero_eq edge_types i))) as [x_ids Hm].
  { apply mapM_is_Some, Forall_forall. intros p Hp%elem_of_nonzero_eq.
    by apply Hok. }
  rewrite Hm, HT. simpl. eexists. split; [reflexivity |].
  split; [apply length_index_put |].
  apply mapM_Some in Hm.
  intros e. split.
  - intros He.
    destruct (index_put_lookup_in
                (λ p v, ∃ row, source_row source_ids x p = Some row ∧ v = T row)
                x_out (nonzero_eq edge_types i) (T <$> x_ids) e) as (v & (row & ? & ->) & ?).
    + apply Forall2_fmap_r. eapply Forall2_impl; [exact Hm |].
      intros p row Hrow. by exists row.
    + by apply Hok.
    + by apply elem_of_nonzero_eq.
    + by exists row.
  - intros He. apply index_put_lookup_notin. by rewrite elem_of_nonzero_eq.
Qed.

(** The loop over the types [types] writes the rows of the edges whose type
    is among them, each with the transform of its type, and leaves the other
    rows as they were. *)
Lemma collect_loop_rows self source_ids edge_types x types x_out :
  (∀ i, i ∈ types → is_Some (transforms self !! i)) →
  (∀ p t, edge_types !! p = Some t → t ∈ types →
          p < length x_out ∧ is_Some (source_row source_ids x p)) →
  ∃ x_out', collect_loop self source_ids edge_types x types x_out = Some x_out' ∧
    length x_out' = length x_out ∧
    ∀ e, (∀ t, edge_types !! e = Some t → t ∈ types →
            ∃ T row, transforms self !! t = Some T ∧
                     source_row source_ids x e = Some row ∧
                     x_out' !! e = Some (T row)) ∧
         ((∀ t, edge_types !! e = Some t → t ∉ types) → x_out' !! e = x_out !! e).
Proof.
  revert x_out. induction types as [|i types IH]; intros x_out HT Hok; simpl.
  { exists x_out. repeat split; try done. intros t _ Hin. by apply elem_of_nil in Hin. }
  destruct (HT i) as [T HTi]; [by left |].
  destruct (collect_type_rows self source_ids edge_types x x_out i T HTi)
    as (x1 & -> & Hlen1 & Hrows1).
  { intros p Hp. apply (Hok p i); [done | by left]. }
  simpl. destruct (IH x1) as (x2 & -> & Hlen2 & Hrows2).
  { intros j Hj. apply HT. by right. }
  { intros p t Hp Ht. rewrite Hlen1. apply (Hok p t); [done | by right]. }
  exists x2. split; [done |]. split; [congruence |].
  intros e. split.
  - intros t He Ht. destruct (decide (t ∈ types)) as [Hin|Hnin].
    + by apply (proj1 (Hrows2 e) t).
    + apply elem_of_cons in Ht as [-> | ?]; [|done].
      destruct (proj1 (Hrows1 e) He) as (row & Hrow & Hx1).
      exists T, row. repeat split; try done.
      rewrite (proj2 (Hrows2 e)); [done |].
      intros t' He'. congruence.
  - intros Hnot. rewrite (proj2 (Hrows2 e)), (proj2 (Hrows1 e)); [done | |].
    + intros He. apply (Hnot i He). by left.
    + intros t He Hin. apply (Hnot t He). by right.
Qed.

Lemma transforms_init linear nz cc sk n t :
  t < n → transforms (__init__ linear nz cc sk n) !! t = Some (linear t).
Proof.
  intros Ht. simpl. by rewrite list_lookup_fmap, lookup_seq_lt.
Qed.

Lemma torch_empty_lookup n e : e < n → torch_empty n !! e = Some (uninit e).
Proof.
  intros He. unfold torch_empty. by rewrite list_lookup_fmap, lookup_seq_lt.
Qed.

Lemma length_torch_empty n : length (torch_empty n) = n.
Proof. unfold torch_empty. by rewrite length_fmap, length_seq. Qed.

Lemma well_formed_source edge_index edge_types x p t :
  well_formed edge_index edge_types x →
  edge_types !! p = Some t →
  ∃ s d row, edge_index !! p = Some (s, d) ∧ x !! s = Some row ∧
             source_row (edge_index.*1) x p = Some row.
Proof.
  intros [Hlen Hsrc] Hp.
  assert (is_Some (edge_index !! p)) as [[s d] Hsd].
  { apply lookup_lt_is_Some. rewrite <- Hlen. by eapply lookup_lt_Some. }
  assert (is_Some (x !! s)) as [row Hrow].
  { apply lookup_lt_is_Some. by apply (proj1 (Forall_lookup _ _) Hsrc p (s, d)). }
  exists s, d, row. repeat split; try done.
  unfold source_row. rewrite list_lookup_fmap, Hsd. simpl. done.
Qed.

(** [__collect__] on well-formed inputs: the row of an edge whose type is
    below [n_type] is the transform of its type applied to the features of
    its source; the row of any other edge is what [torch.empty] left. *)
Lemma collect_rows linear nz cc sk n edge_index edge_types x :
  well_formed edge_index edge_types x →
  ∃ x_out, __collect__ (__init__ linear nz cc sk n) edge_index edge_types x = Some x_out ∧
    length x_out = length edge_index ∧
    ∀ e t, edge_types !! e = Some t →
      (t < n → ∃ s d row, edge_index !! e = Some (s, d) ∧ x !! s = Some row ∧
                          x_out !! e = Some (linear t row)) ∧
      (n ≤ t → x_out !! e = Some (uninit e)).
Proof.
  intros Hwf. unfold __collect__.
  destruct (collect_loop_rows (__init__ linear nz cc sk n) (edge_index.*1) edge_types x
              (seq 0 n) (torch_empty (length edge_index)))
    as (x_out & Hc & Hlen & Hrows).
  { intros i Hi%elem_of_seq. rewrite transforms_init by lia. eauto. }
  { intros p t Hp _. rewrite length_torch_empty.
    destruct (well_formed_source _ _ _ _ _ Hwf Hp) as (s & d & row & Hsd & _ & Hrow).
    split; [by eapply lookup_lt_Some | eauto]. }
  exists x_out. split; [exact Hc |]. rewrite length_torch_empty in Hlen.
  split; [done |]. intros e t He. split.
  - intros Ht.
    destruct (proj1 (Hrows e) t He) as (T & row & HT & Hrow & Hx); [apply elem_of_seq; lia |].
    rewrite transforms_init in HT by done. injection HT as <-.
    destruct (well_formed_source _ _ _ _ _ Hwf He) as (s & d & row' & Hsd & Hxs & Hrow').
    exists s, d, row. repeat split; try done. congruence.
  - intros Ht. rewrite (proj2 (Hrows e)).
    + apply torch_empty_lookup. destruct Hwf as [<- _]. by eapply lookup_lt_Some.
    + intros t' He' Hin%elem_of_seq. assert (t' = t) by congruence. lia.
Qed.

(** *** The rows [aggregate] computes *)

Lemma scatter_foldl_lookup {A} (plus : A → A → A) (l : list (nat * A)) (out : list A) v :
  foldl (λ out '(v, m), alter (λ acc, plus acc m) v out) out l !! v =
  (λ a, foldl plus a (filter (λ p, p.1 = v) l).*2) <$> out !! v.
Proof.
  revert out. induction l as [|[i m] l IH]; intros out; simpl.
  { by destruct (out !! v). }
  rewrite IH, filter_cons. simpl. destruct (decide (i = v)) as [-> | Hne].
  - rewrite list_lookup_alter. rewrite decide_True by done.
    by destruct (out !! v).
  - by rewrite list_lookup_alter_ne.
Qed.

Lemma scatter_sum_lookup {A} (plus : A → A → A) start src index n v :
  v < n →
  scatter_sum plus start src index n !! v = Some (foldl plus start (sent_to v index src)).
Proof.
  intros Hv. unfold scatter_sum. rewrite scatter_foldl_lookup.
  by rewrite (proj2 (lookup_replicate n start start v)).
Qed.

Lemma length_scatter_sum {A} (plus : A → A → A) start src index n :
  length (scatter_sum plus start src index n) = n.
Proof.
  unfold scatter_sum. generalize (zip index src). intros l.
  rewrite <- (length_replicate n start) at 2. generalize (replicate n start).
  induction l as [|[i m] l IH]; intros out; simpl; [done |].
  by rewrite IH, length_alter.
Qed.

Lemma length_sent_to {A} v index (src : list A) :
  length src = length index →
  length (sent_to v index src) = length (filter (λ i, i = v) index).
Proof.
  unfold sent_to. revert src. induction index as [|i index IH]; intros [|m src] Hlen;
    simpl in *; try done.
  rewrite !filter_cons. simpl. destruct (decide (i = v)); simpl; rewrite IH by lia; done.
Qed.

Lemma sent_to_ones v index k a :
  foldl Nat.add a (sent_to v index (replicate k 1)) =
  a + length (sent_to v index (replicate k 1)).
Proof.
  unfold sent_to. revert k a. induction index as [|i index IH]; intros [|k] a; simpl;
    try lia.
  rewrite filter_cons. simpl. destruct (decide (i = v)); simpl; rewrite IH, ?length_fmap; lia.
Qed.

(** An index that receives a row gets the sum of the rows sent to it divided
    by their number. *)
Lemma aggregate_lookup (inputs : list Tout) (index : list nat) v :
  length inputs = length index →
  v ∈ index →
  sent_to v index inputs ≠ [] ∧
  aggregate inputs index !! v =
    Some (div (foldl add zero (sent_to v index inputs)) (length (sent_to v index inputs))).
Proof.
  intros Hlen Hv.
  assert (0 < length (sent_to v index inputs)) as Hpos.
  { rewrite length_sent_to by done.
    assert (v ∈ filter (λ i, i = v) index) as Hin by (by apply list_elem_of_filter).
    destruct (filter (λ i, i = v) index); [by apply elem_of_nil in Hin | simpl; lia]. }
  split; [by destruct (sent_to v index inputs); [simpl in Hpos; lia |] |].
  unfold aggregate. destruct index as [|i0 index]; [by apply elem_of_nil in Hv |].
  set (idx := i0 :: index) in *.
  assert (v < S (max_list idx)) as Hlt.
  { apply max_list_elem_of_le in Hv. lia. }
  rewrite lookup_zip_with, !scatter_sum_lookup by done.
  rewrite sent_to_ones, (length_sent_to v idx (replicate (length idx) 1))
    by (by rewrite length_replicate).
  rewrite <- (length_sent_to v idx inputs) by done.
  simpl. do 2 f_equal. lia.
Qed.

Lemma sent_to_incoming (R : nat * nat * nat → Tout → Prop) edges (x_out : list Tout) v :
  Forall2 R edges x_out →
  Forall2 R (incoming v edges) (sent_to v ((λ edge, edge.1.2) <$> edges) x_out).
Proof.
  unfold incoming, sent_to.
  induction 1 as [|edge m edges x_out HR H IH]; simpl; [constructor |].
  rewrite !filter_cons. simpl. destruct (decide (edge.1.2 = v)); simpl; [|done].
  by constructor.
Qed.

Lemma collect_messages linear nz cc sk n edge_index edge_types x x_out :
  well_formed edge_index edge_types x →
  Forall (λ t, t < n) edge_types →
  __collect__ (__init__ linear nz cc sk n) edge_index edge_types x = Some x_out →
  Forall2 (λ edge m, edge_message (__init__ linear nz cc sk n) x edge = Some m)
          (zip edge_index edge_types) x_out.
Proof.
  intros Hwf Hty Hc.
  destruct (collect_rows linear nz cc sk n _ _ _ Hwf) as (x_out' & Hc' & Hlen & Hrows).
  assert (x_out' = x_out) as -> by congruence.
  apply Forall2_same_length_lookup_2.
  { rewrite length_zip, Hlen. destruct Hwf as [-> _]. lia. }
  intros e [[s d] t] m [Hsd Ht]%lookup_zip_Some Hm.
  assert (t < n) as Hlt by (by apply (proj1 (Forall_lookup _ _) Hty e t)).
  destruct (proj1 (Hrows e t Ht) Hlt) as (s' & d' & row & Hsd' & Hrow & Hx).
  assert (s' = s) as -> by congruence.
  unfold edge_message. rewrite transforms_init, Hrow by done. simpl. congruence.
Qed.

(** *** The claims on the forward pass *)

(** C1. In a call of [forward] on the default layer (five relation types)
    the message of the edge at position [e], of source [s] and type [t], is
    the linear layer created for the type [t] applied to the row [x[s]]: the
    rows of [__collect__] go through [message] unchanged into [aggregate]. *)
Theorem forward_message_per_edge (linear : nat → Tin → Tout)
    (x : list Tin) (edge_index : list (nat * nat)) (edge_types : list nat) :
  well_formed edge_index edge_types x →
  ∃ x_out,
    __collect__ (default_layer linear) edge_index edge_types x = Some x_out ∧
    forward (default_layer linear) x edge_index edge_types =
      Some (aggregate (message x_out) (edge_index.*2)) ∧
    length (message x_out) = length edge_index ∧
    ∀ e s d t,
      edge_index !! e = Some (s, d) → edge_types !! e = Some t → t < 5 →
      transforms (default_layer linear) !! t = Some (linear t) ∧
      ∃ row, x !! s = Some row ∧ message x_out !! e = Some (linear t row).
Proof.
  intros Hwf. unfold default_layer.
  destruct (collect_rows linear false false true 5 _ _ _ Hwf) as (x_out & Hc & Hlen & Hrows).
  exists x_out. split; [exact Hc |]. split; [|split; [exact Hlen |]].
  - unfold forward, propagate. rewrite Hc. reflexivity.
  - intros e s d t Hsd Ht Hlt. split; [by apply transforms_init |].
    destruct (proj1 (Hrows e t Ht) Hlt) as (s' & d' & row & Hsd' & Hrow & Hx).
    exists row. split; [congruence | exact Hx].
Qed.

(** C2. With the default construction the output row of a node [v] that is
    the target of an edge is the mean of the messages of exactly the edges
    whose target is [v]: their sum, in the order of the edges, divided by
    their number. *)
Theorem forward_mean_of_incoming (linear : nat → Tin → Tout)
    (x : list Tin) (edge_index : list (nat * nat)) (edge_types : list nat) (v : nat) :
  well_formed edge_index edge_types x →
  Forall (λ t, t < 5) edge_types →
  v ∈ edge_index.*2 →
  ∃ out msgs,
    forward (default_layer linear) x edge_index edge_types = Some out ∧
    mapM (edge_message (default_layer linear) x)
         (incoming v (zip edge_index edge_types)) = Some msgs ∧
    msgs ≠ [] ∧
    out !! v = Some (div (foldl add zero msgs) (length msgs)).
Proof.
  intros Hwf Hty Hv. unfold default_layer.
  destruct (collect_rows linear false false true 5 _ _ _ Hwf) as (x_out & Hc & Hlen & _).
  pose proof (collect_messages _ _ _ _ _ _ _ _ _ Hwf Hty Hc) as Hmsgs.
  apply (sent_to_incoming _ _ _ v) in Hmsgs.
  assert ((λ edge : nat * nat * nat, edge.1.2) <$> zip edge_index edge_types
          = edge_index.*2) as Hdst.
  { rewrite <- (fst_zip edge_index edge_types) at 2 by (destruct Hwf as [-> _]; lia).
    by rewrite <- list_fmap_compose. }
  rewrite Hdst in Hmsgs.
  destruct (aggregate_lookup x_out (edge_index.*2) v) as [Hne Hout];
    [by rewrite length_fmap | done |].
  exists (aggregate x_out (edge_index.*2)), (sent_to v (edge_index.*2) x_out).
  split; [|split; [|split]]; try done.
  - unfold forward, propagate. rewrite Hc. reflexivity.
  - by apply mapM_Some.
Qed.

(** C3. On well-formed inputs [__collect__] returns one row per edge. When
    every type is below [n_type], every row is written by the transform of
    exactly one type, the type of its edge. The row of an edge whose type is
    [n_type] or more is written in no iteration and still holds what
    [torch.empty] left there. *)
Theorem collect_assigns_each_row_once (linear : nat → Tin → Tout)
    (nz cc sk : bool) (n : nat)
    (x : list Tin) (edge_index : list (nat * nat)) (edge_types : list nat) :
  well_formed edge_index edge_types x →
  ∃ x_out,
    __collect__ (__init__ linear nz cc sk n) edge_index edge_types x = Some x_out ∧
    length x_out = length edge_index ∧
    (Forall (λ t, t < n) edge_types →
     ∀ e, e < length x_out →
       ∃ t s d row,
         t < n ∧
         (∀ i, i < n → e ∈ nonzero_eq edge_types i ↔ i = t) ∧
         edge_index !! e = Some (s, d) ∧ x !! s = Some row ∧
         x_out !! e = Some (linear t row)) ∧
    (∀ e t, edge_types !! e = Some t → n ≤ t →
       (∀ i, i < n → e ∉ nonzero_eq edge_types i) ∧
       x_out !! e = Some (uninit e)).
Proof.
  intros Hwf.
  destruct (collect_rows linear nz cc sk n _ _ _ Hwf) as (x_out & Hc & Hlen & Hrows).
  exists x_out. split; [exact Hc |]. split; [exact Hlen |]. split.
  - intros Hty e He.
    assert (is_Some (edge_types !! e)) as [t Ht].
    { apply lookup_lt_is_Some. destruct Hwf as [-> _]. lia. }
    assert (t < n) as Hlt by (by apply (proj1 (Forall_lookup _ _) Hty e t)).
    destruct (proj1 (Hrows e t Ht) Hlt) as (s & d & row & Hsd & Hrow & Hx).
    exists t, s, d, row. repeat split; try done.
    + intros Hin%elem_of_nonzero_eq. congruence.
    + intros ->. by apply elem_of_nonzero_eq.
  - intros e t Ht Hge. split; [|by apply (Hrows e t Ht)].
    intros i Hi Hin%elem_of_nonzero_eq. assert (i = t) by congruence. lia.
Qed.

(** *** When [__collect__] raises *)

Lemma collect_type_sources self source_ids edge_types x x_out i x_out' :
  collect_type self source_ids edge_types x x_out i = Some x_out' →
  ∀ p, edge_types !! p = Some i → is_Some (source_row source_ids x p).
Proof.
  unfold collect_type. intros Hc p Hp.
  destruct (mapM (source_row source_ids x) (nonzero_eq edge_types i)) as [x_ids|] eqn:Hm;
    [|done].
  assert (is_Some (mapM (source_row source_ids x) (nonzero_eq edge_types i))) as Hs by eauto.
  apply mapM_is_Some in Hs.
  apply (proj1 (Forall_forall _ _) Hs p). by apply elem_of_nonzero_eq.
Qed.

Lemma collect_loop_sources self source_ids edge_types x types x_out x_out' :
  collect_loop self source_ids edge_types x types x_out = Some x_out' →
  ∀ p t, edge_types !! p = Some t → t ∈ types → is_Some (source_row source_ids x p).
Proof.
  revert x_out. induction types as [|i types IH]; intros x_out Hc p t Hp Hin.
  { by apply elem_of_nil in Hin. }
  simpl in Hc.
  destruct (collect_type self source_ids edge_types x x_out i) as [x1|] eqn:H1; [|done].
  apply elem_of_cons in Hin as [-> | Hin].
  - by eapply collect_type_sources.
  - by eapply IH.
Qed.

(** X7. [__collect__] returns exactly when every position that carries a
    relation type below [n_type] is the position of an edge whose source is
    a row of [x]; otherwise an index is out of range. Positions whose type is
    [n_type] or more are never looked at. *)
Theorem collect_returns_iff (linear : nat → Tin → Tout) (nz cc sk : bool) (n : nat)
    (x : list Tin) (edge_index : list (nat * nat)) (edge_types : list nat) :
  is_Some (__collect__ (__init__ linear nz cc sk n) edge_index edge_types x) ↔
  ∀ p t, edge_types !! p = Some t → t < n →
         ∃ s d, edge_index !! p = Some (s, d) ∧ s < length x.
Proof.
  split.
  - intros [x_out Hc] p t Hp Ht.
    destruct (collect_loop_sources _ _ _ _ _ _ _ Hc p t Hp) as [row Hrow];
      [apply elem_of_seq; simpl; lia |].
    unfold source_row in Hrow. rewrite list_lookup_fmap in Hrow.
    destruct (edge_index !! p) as [[s d]|]; [|done]. simpl in Hrow.
    exists s, d. split; [done |]. by eapply lookup_lt_Some.
  - intros Hok. unfold __collect__.
    destruct (collect_loop_rows (__init__ linear nz cc sk n) (edge_index.*1) edge_types x
                (seq 0 n) (torch_empty (length edge_index)))
      as (x_out & Hc & _).
    + intros i Hi%elem_of_seq. rewrite transforms_init by lia. eauto.
    + intros p t Hp Ht%elem_of_seq. rewrite length_torch_empty.
      destruct (Hok p t Hp) as (s & d & Hsd & Hs); [lia |].
      split; [by eapply lookup_lt_Some |].
      unfold source_row. rewrite list_lookup_fmap, Hsd. simpl.
      by apply lookup_lt_is_Some.
    + by exists x_out.
Qed.

End Layer.

(** *** A drug/side-effect graph with integer features *)

(** Three nodes (two drugs and a side effect) with one feature each; the
    layer of type [i] adds [100 * (i + 1)]. *)
Definition linear_example (i : nat) (row : Z) : Z := (100 * Z.of_nat (i + 1) + row)%Z.
Definition x_example : list Z := [1; 2; 3]%Z.
Definition edge_index_example : list (nat * nat) :=
  [(0, 1); (1, 0); (2, 1); (0, 0); (1, 1); (2, 2)].
Definition edge_types_example : list nat := [0; 0; 2; 3; 3; 4].
(** The same edges, the last one with a type that is no relation type. *)
Definition edge_types_stray : list nat := [0; 0; 2; 3; 3; 7].
Definition uninit_example (e : nat) : Z := (- Z.of_nat e - 1)%Z.
Definition div_example (row : Z) (k : nat) : Z := (row / Z.of_nat k)%Z.

Example collect_example :
  __collect__ Z Z uninit_example (default_layer Z Z linear_example)
    edge_index_example edge_types_example x_example
  = Some [101; 102; 303; 401; 402; 503]%Z.
Proof. reflexivity. Qed.

Example forward_example :
  forward Z Z 0%Z Z.add div_example uninit_example (λ _ _ _ out, out)
    (default_layer Z Z linear_example) x_example edge_index_example edge_types_example
  = Some [251; 268; 503]%Z.
Proof. reflexivity. Qed.

Lemma well_formed_example :
  well_formed Z edge_index_example edge_types_example x_example.
Proof. split; [reflexivity | repeat constructor]. Qed.

Lemma forward_message_per_edge_witness :
  ∃ x_out,
    __collect__ Z Z uninit_example (default_layer Z Z linear_example)
      edge_index_example edge_types_example x_example = Some x_out ∧
    forward Z Z 0%Z Z.add div_example uninit_example (λ _ _ _ out, out)
      (default_layer Z Z linear_example) x_example edge_index_example edge_types_example =
      Some (aggregate Z 0%Z Z.add div_example (message Z x_out) (edge_index_example.*2)) ∧
    length (message Z x_out) = length edge_index_example ∧
    ∀ e s d t,
      edge_index_example !! e = Some (s, d) → edge_types_example !! e = Some t → t < 5 →
      transforms Z Z (default_layer Z Z linear_example) !! t = Some (linear_example t) ∧
      ∃ row, x_example !! s = Some row ∧ message Z x_out !! e = Some (linear_example t row).
Proof.
  apply (forward_message_per_edge Z Z 0%Z Z.add div_example uninit_example
           (λ _ _ _ out, out) linear_example x_example edge_index_example edge_types_example).
  split; [reflexivity | repeat constructor].
Defined.

Lemma forward_mean_of_incoming_witness :
  ∃ out msgs,
    forward Z Z 0%Z Z.add div_example uninit_example (λ _ _ _ out, out)
      (default_layer Z Z linear_example) x_example edge_index_example edge_types_example
      = Some out ∧
    mapM (edge_message Z Z (default_layer Z Z linear_example) x_example)
         (incoming 1 (zip edge_index_example edge_types_example)) = Some msgs ∧
    msgs ≠ [] ∧
    out !! 1 = Some (div_example (foldl Z.add 0%Z msgs) (length msgs)).
Proof.
  apply (forward_mean_of_incoming Z Z 0%Z Z.add div_example uninit_example
           (λ _ _ _ out, out) linear_example x_example edge_index_example edge_types_example 1).
  - split; [reflexivity | repeat constructor].
  - repeat constructor.
  - apply list_elem_of_In. simpl. tauto.
Defined.

Lemma collect_assigns_each_row_once_witness :
  ∃ x_out,
    __collect__ Z Z uninit_example (__init__ Z Z linear_example false false true 5)
      edge_index_example edge_types_stray x_example = Some x_out ∧
    length x_out = length edge_index_example ∧
    (Forall (λ t, t < 5) edge_types_stray →
     ∀ e, e < length x_out →
       ∃ t s d row,
         t < 5 ∧
         (∀ i, i < 5 → e ∈ nonzero_eq edge_types_stray i ↔ i = t) ∧
         edge_index_example !! e = Some (s, d) ∧ x_example !! s = Some row ∧
         x_out !! e = Some (linear_example t row)) ∧
    (∀ e t, edge_types_stray !! e = Some t → 5 ≤ t →
       (∀ i, i < 5 → e ∉ nonzero_eq edge_types_stray i) ∧
       x_out !! e = Some (uninit_example e)).
Proof.
  apply (collect_assigns_each_row_once Z Z uninit_example linear_example false false true 5
           x_example edge_index_example edge_types_stray).
  split; [reflexivity | repeat constructor].
Defined.

(** The row of the stray edge is whatever the fresh buffer held. *)
Example collect_stray_example :
  __collect__ Z Z uninit_example (default_layer Z Z linear_example)
    edge_index_example edge_types_stray x_example
  = Some [101; 102; 303; 401; 402; uninit_example 5]%Z.
Proof. reflexivity. Qed.

(** *** The buffer of [torch.empty] *)

(** X8. With one type per edge and every type below [n_type], the rows
    [__collect__] returns, and so the output of [forward], do not depend on
    what the buffer allocated by [torch.empty] held. *)
Theorem forward_ignores_buffer (Tin Tout : Type) (zero : Tout) (add : Tout → Tout → Tout)
    (div : Tout → nat → Tout) (uninit1 uninit2 : nat → Tout)
    (last_weight : bool → bool → list Tin → list Tout → list Tout)
    (linear : nat → Tin → Tout) (nz cc sk : bool) (n : nat)
    (x : list Tin) (edge_index : list (nat * nat)) (edge_types : list nat) :
  well_formed Tin edge_index edge_types x →
  Forall (λ t, t < n) edge_types →
  __collect__ Tin Tout uninit1 (__init__ Tin Tout linear nz cc sk n) edge_index edge_types x =
  __collect__ Tin Tout uninit2 (__init__ Tin Tout linear nz cc sk n) edge_index edge_types x ∧
  forward Tin Tout zero add div uninit1 last_weight
    (__init__ Tin Tout linear nz cc sk n) x edge_index edge_types =
  forward Tin Tout zero add div uninit2 last_weight
    (__init__ Tin Tout linear nz cc sk n) x edge_index edge_types.
Proof.
  intros Hwf Hty.
  assert (__collect__ Tin Tout uninit1 (__init__ Tin Tout linear nz cc sk n)
            edge_index edge_types x =
          __collect__ Tin Tout uninit2 (__init__ Tin Tout linear nz cc sk n)
            edge_index edge_types x) as Heq.
  { destruct (collect_rows Tin Tout uninit1 linear nz cc sk n _ _ _ Hwf)
      as (o1 & -> & Hl1 & Hr1).
    destruct (collect_rows Tin Tout uninit2 linear nz cc sk n _ _ _ Hwf)
      as (o2 & -> & Hl2 & Hr2).
    f_equal. apply list_eq. intros e.
    destruct (edge_types !! e) as [t|] eqn:Ht.
    - assert (t < n) as Hlt by (by apply (proj1 (Forall_lookup _ _) Hty e t)).
      destruct (proj1 (Hr1 e t Ht) Hlt) as (s1 & d1 & r1 & Hsd1 & Hx1 & ->).
      destruct (proj1 (Hr2 e t Ht) Hlt) as (s2 & d2 & r2 & Hsd2 & Hx2 & ->).
      congruence.
    - apply lookup_ge_None in Ht. destruct Hwf as [Hlen _].
      rewrite !(proj2 (lookup_ge_None _ _)) by lia. done. }
  split; [exact Heq |]. unfold forward, propagate. by rewrite Heq.
Qed.

Lemma forward_ignores_buffer_witness :
  __collect__ Z Z uninit_example (__init__ Z Z linear_example false false true 5)
    edge_index_example edge_types_example x_example =
  __collect__ Z Z (λ _, 0%Z) (__init__ Z Z linear_example false false true 5)
    edge_index_example edge_types_example x_example ∧
  forward Z Z 0%Z Z.add div_example uninit_example (λ _ _ _ out, out)
    (__init__ Z Z linear_example false false true 5)
    x_example edge_index_example edge_types_example =
  forward Z Z 0%Z Z.add div_example (λ _, 0%Z) (λ _ _ _ out, out)
    (__init__ Z Z linear_example false false true 5)
    x_example edge_index_example edge_types_example.
Proof.
  apply (forward_ignores_buffer Z Z 0%Z Z.add div_example uninit_example (λ _, 0%Z)
           (λ _ _ _ out, out) linear_example false false true 5
           x_example edge_index_example edge_types_example).
  - split; [reflexivity | repeat constructor].
  - repeat constructor.
Defined.

(** A source that is no row of [x] makes the call raise, but not when the
    type of its edge is no relation type. *)
Example collect_bad_source_example :
  __collect__ Z Z uninit_example (default_layer Z Z linear_example)
    [(0, 1); (9, 0)] [0; 1] x_example = None ∧
  __collect__ Z Z uninit_example (default_layer Z Z linear_example)
    [(0, 1); (9, 0)] [0; 7] x_example = Some [101%Z; uninit_example 1].
Proof. split; reflexivity. Qed.

End HyperConvModel.

(** ** [src/gen_tsui_c5.py] *)

Module Tsui.
Import Py.

(** The two kinds of value [get_dict] can return here: a drug code read from
    the drug-bank file (a string) or the integer default. *)
Inductive pyval : Type :=
  | PyStr (s : string)
  | PyInt (z : Z).

#[export] Instance pyval_eq_dec : EqDecision pyval.
Proof. solve_decision. Defined.

(** ["%s" % v]. *)
Definition format_s (v : pyval) : string :=
  match v with
  | PyStr s => s
  | PyInt z => pretty z
  end.

(** Modelled from the spec: [utils.utils.get_dict] is not among the source
    files; a lookup in the dictionary that yields the given default when the
    key is absent (the "-1 default" of a failed drug-code lookup). *)
Definition get_dict (d : gmap string string) (k : string) (default : pyval) : pyval :=
  match d !! k with
  | Some v => PyStr v
  | None => default
  end.

(** The variables of [export_tsui] that live across loop iterations, and the
    text written to [fout] so far. [drug1] and [drug2] are unbound until the
    first line has been read. *)
Record locals : Type := Locals {
  p_drugpair : string;
  c_ses : list string;
  drug1 : option string;
  drug2 : option string;
  fout : string
}.

Definition init : locals :=
  {| p_drugpair := ""; c_ses := []; drug1 := None; drug2 := None; fout := "" |}.

(** ["%s_%s" % (drug1, drug2)]. *)
Definition d_pair_of (drug1 drug2 : string) : string := drug1 +:+ "_" +:+ drug2.

(** ["%s|%s|%s|%s|" % (drug1, drug2, c1, c2)]. *)
Definition prefix_text (drug1 drug2 : string) (c1 c2 : pyval) : string :=
  drug1 +:+ "|" +:+ drug2 +:+ "|" +:+ format_s c1 +:+ "|" +:+ format_s c2 +:+ "|".

(** Lines 35-38 and 48-51: the two lookups and the guarded write of the
    prefix. *)
Definition write_prefix (d : gmap string string) (drug1 drug2 : string) (out : string) : string :=
  let c1 := get_dict d drug1 (PyInt (-1)) in
  let c2 := get_dict d drug2 (PyInt (-1)) in
  if bool_decide (c1 ≠ PyInt (-1)) && bool_decide (c2 ≠ PyInt (-1))
  then out +:+ prefix_text drug1 drug2 c1 c2
  else out.

(** [for se in c_ses[:-1]: fout.write("%s," % se)]: the text written, and the
    value the loop leaves in the variable [se] (unchanged when the loop body
    never runs). *)
Fixpoint write_heads (heads : list string) (se : string) (out : string) : string * string :=
  match heads with
  | [] => (out, se)
  | x :: heads' => write_heads heads' x (out +:+ x +:+ ",")
  end.

(** Lines 39-41 and 53-56: the side-effect list; [c_ses[-1]] raises on an
    empty list. The second component is the variable [se] afterwards. *)
Definition write_ses (c_ses : list string) (se : string) (out : string) : result (string * string) :=
  let '(out, se) := write_heads (removelast c_ses) se out in
  match last c_ses with
  | Some x => Ok (out +:+ x +:+ nl, se)
  | None => Raise IndexError
  end.

(** Lines 29-31: the three fields of a line; a line with fewer than three
    comma-separated parts raises. *)
Definition read_fields (line : string) : result (string * string * string) :=
  let parts := split "," (strip line) in
  d1 ← getitem parts 0;
  d2 ← getitem parts 1;
  se ← getitem parts 2;
  Ok (d1, d2, se).

(** One iteration of the [while True] loop on a line that was read
    (lines 29-45). The variable [se] that line 45 appends is the one the
    flush loop of line 39 may have rebound. *)
Definition loop_body (d : gmap string string) (st : locals) (line : string) : result locals :=
  '(d1, d2, se) ← read_fields line;
  let d_pair := d_pair_of d1 d2 in
  if bool_decide (d_pair ≠ p_drugpair st) then
    '(out, se) ← (if bool_decide (length (c_ses st) ≠ 0)
                  then write_ses (c_ses st) se (write_prefix d d1 d2 (fout st))
                  else Ok (fout st, se));
    Ok {| p_drugpair := d_pair; c_ses := [se];
          drug1 := Some d1; drug2 := Some d2; fout := out |}
  else
    Ok {| p_drugpair := p_drugpair st; c_ses := c_ses st ++ [se];
          drug1 := Some d1; drug2 := Some d2; fout := fout st |}.

(** The loop over the lines that follow the header, as [readline] returned
    them: each ends with its newline, so none is the empty string that ends
    the loop. *)
Fixpoint loop (d : gmap string string) (st : locals) (lines : list string) : result locals :=
  match lines with
  | [] => Ok st
  | line :: lines' => st' ← loop_body d st line; loop d st' lines'
  end.

(** Lines 47-56: the last group. *)
Definition write_last (d : gmap string string) (st : locals) : result string :=
  match drug1 st, drug2 st with
  | Some d1, Some d2 =>
      let out := write_prefix d d1 d2 (fout st) in
      if bool_decide (0 < length (c_ses st))%nat
      then fst <$> write_ses (c_ses st) "" out
      else Raise AssertionError
  | _, _ => Raise NameError
  end.

(** [export_tsui]: [dname2code] is what [load_drug_bank] returned, [lines]
    are the lines of [TSUI_ML.txt] after its header; the result is the text
    of [TSUI_C5.txt]. *)
Definition export_tsui (dname2code : gmap string string) (lines : list string) : result string :=
  st ← loop dname2code init lines;
  write_last dname2code st.


(** *** What the claims call the written text *)

(** The line of side effects of a group: its entries separated by commas,
    then a newline. *)
Definition ses_text (c_ses : list string) : string := join "," c_ses +:+ nl.

(** A drug-code lookup succeeds when [get_dict] does not return its [-1]
    default. *)
Definition lookup_ok (d : gmap string string) (k : string) : bool :=
  bool_decide (get_dict d k (PyInt (-1)) ≠ PyInt (-1)).

(** The prefix a flush writes for the drugs [d1] and [d2]: present when both
    lookups succeed, empty otherwise. *)
Definition guarded_prefix (d : gmap string string) (d1 d2 : string) : string :=
  if lookup_ok d d1 && lookup_ok d d2
  then prefix_text d1 d2 (get_dict d d1 (PyInt (-1))) (get_dict d d2 (PyInt (-1)))
  else "".

(** The value of the variable [se] after the flush loop over [c_ses[:-1]]. *)
Definition se_after (c_ses : list string) (se : string) : string :=
  default se (last (removelast c_ses)).

(** After a line has been processed the loop variables name the pair of
    that line, which is the pair of the current group, and the group is not
    empty. *)
Definition in_group (st : locals) : Prop :=
  ∃ d1 d2, drug1 st = Some d1 ∧ drug2 st = Some d2 ∧
           p_drugpair st = d_pair_of d1 d2 ∧ c_ses st ≠ [].

(** *** Lemmas on the written text *)

Lemma lookup_ok_is_Some d k : lookup_ok d k = true ↔ is_Some (d !! k).
Proof.
  unfold lookup_ok, get_dict. destruct (d !! k) as [c|].
  - rewrite bool_decide_true by done. split; [eauto | done].
  - rewrite bool_decide_false by (intros H; by apply H).
    split; [done | by intros [? ?]].
Qed.

Lemma write_prefix_guarded d d1 d2 out :
  write_prefix d d1 d2 out = out +:+ guarded_prefix d d1 d2.
Proof.
  unfold write_prefix, guarded_prefix, lookup_ok.
  destruct (bool_decide _ && bool_decide _); [reflexivity |].
  now rewrite app_nil_r_s.
Qed.

Lemma guarded_prefix_found d d1 d2 c1 c2 :
  d !! d1 = Some c1 → d !! d2 = Some c2 →
  guarded_prefix d d1 d2 = d1 +:+ "|" +:+ d2 +:+ "|" +:+ c1 +:+ "|" +:+ c2 +:+ "|".
Proof.
  intros H1 H2. unfold guarded_prefix.
  rewrite (proj2 (lookup_ok_is_Some d d1)), (proj2 (lookup_ok_is_Some d d2)) by eauto.
  unfold get_dict. now rewrite H1, H2.
Qed.

Lemma guarded_prefix_missing d d1 d2 :
  lookup_ok d d1 = false ∨ lookup_ok d d2 = false → guarded_prefix d d1 d2 = "".
Proof.
  unfold guarded_prefix. intros [-> | ->]; [reflexivity |].
  now rewrite andb_false_r.
Qed.

Lemma write_ses_cons x y l se out :
  write_ses (x :: y :: l) se out = write_ses (y :: l) x (out +:+ x +:+ ",").
Proof.
  unfold write_ses. rewrite last_cons_cons.
  change (removelast (x :: y :: l)) with (x :: removelast (y :: l)).
  reflexivity.
Qed.

Lemma se_after_cons x y l se : se_after (x :: y :: l) se = se_after (y :: l) x.
Proof.
  unfold se_after.
  change (removelast (x :: y :: l)) with (x :: removelast (y :: l)).
  rewrite last_cons. now destruct (last (removelast (y :: l))).
Qed.

Lemma write_ses_text c_ses se out :
  c_ses ≠ [] →
  write_ses c_ses se out = Ok (out +:+ ses_text c_ses, se_after c_ses se).
Proof.
  intros Hne. revert se out.
  induction c_ses as [|x [|y l] IH]; intros se out; [done | reflexivity |].
  rewrite write_ses_cons, se_after_cons, IH by done.
  unfold ses_text. do 2 f_equal.
  change (join "," (x :: y :: l)) with (x +:+ "," +:+ join "," (y :: l)).
  now rewrite !app_assoc_s.
Qed.

Lemma loop_app d st l1 l2 :
  loop d st (l1 ++ l2) = (st' ← loop d st l1; loop d st' l2).
Proof.
  revert st. induction l1 as [|x l1 IH]; intros st; simpl; [reflexivity |].
  destruct (loop_body d st x) as [st'|e]; simpl; [apply IH | reflexivity].
Qed.

(** A line of the next group flushes the current one. *)
Lemma loop_body_flush d st line d1 d2 se :
  read_fields line = Ok (d1, d2, se) →
  c_ses st ≠ [] →
  d_pair_of d1 d2 ≠ p_drugpair st →
  loop_body d st line =
    Ok {| p_drugpair := d_pair_of d1 d2; c_ses := [se_after (c_ses st) se];
          drug1 := Some d1; drug2 := Some d2;
          fout := fout st +:+ guarded_prefix d d1 d2 +:+ ses_text (c_ses st) |}.
Proof.
  intros Hf Hne Hp. unfold loop_body. rewrite Hf. simpl.
  rewrite bool_decide_true by done.
  rewrite bool_decide_true by (destruct (c_ses st); simpl; [done | lia]).
  rewrite write_ses_text, write_prefix_guarded by done. simpl.
  now rewrite app_assoc_s.
Qed.

(** A processed line leaves its own two names in [drug1] and [drug2]. *)
Lemma loop_body_names d st line st' :
  loop_body d st line = Ok st' →
  ∃ d1 d2 se, read_fields line = Ok (d1, d2, se) ∧
    drug1 st' = Some d1 ∧ drug2 st' = Some d2 ∧
    p_drugpair st' = d_pair_of d1 d2 ∧ c_ses st' ≠ [].
Proof.
  unfold loop_body. destruct (read_fields line) as [[[d1 d2] se]|]; simpl; [|done].
  case_bool_decide as Hp.
  - destruct (if bool_decide _ then _ else _) as [[out se']|]; simpl; [|done].
    intros [= <-]. exists d1, d2, se. simpl. done.
  - intros [= <-]. exists d1, d2, se. simpl. repeat split; try done.
    by destruct (c_ses st).
Qed.

Lemma loop_body_in_group d st line st' :
  loop_body d st line = Ok st' → in_group st'.
Proof.
  intros H. apply loop_body_names in H as (d1 & d2 & se & _ & H).
  by exists d1, d2.
Qed.

Lemma loop_in_group d lines st st' :
  in_group st → loop d st lines = Ok st' → in_group st'.
Proof.
  revert st. induction lines as [|x lines IH]; intros st Hin; simpl.
  - by intros [= <-].
  - destruct (loop_body d st x) as [st1|] eqn:Hb; simpl; [|done].
    apply IH. by eapply loop_body_in_group.
Qed.

Lemma loop_init_in_group d lines st :
  lines ≠ [] → loop d init lines = Ok st → in_group st.
Proof.
  destruct lines as [|x lines]; [done|]. intros _. simpl.
  destruct (loop_body d init x) as [st1|] eqn:Hb; simpl; [|done].
  apply loop_in_group. by eapply loop_body_in_group.
Qed.

Lemma write_last_in_group d st d1 d2 :
  drug1 st = Some d1 → drug2 st = Some d2 → c_ses st ≠ [] →
  write_last d st = Ok (fout st +:+ guarded_prefix d d1 d2 +:+ ses_text (c_ses st)).
Proof.
  intros H1 H2 Hne. unfold write_last. rewrite H1, H2.
  rewrite bool_decide_true by (destruct (c_ses st); simpl; [done | lia]).
  rewrite write_ses_text, write_prefix_guarded by done. simpl.
  now rewrite app_assoc_s.
Qed.

(** A line with three fields never makes the loop body raise, and the
    output file only grows. *)
Lemma loop_body_total d st line :
  is_ok (read_fields line) = true →
  ∃ st' w, loop_body d st line = Ok st' ∧ fout st' = fout st +:+ w.
Proof.
  unfold loop_body. destruct (read_fields line) as [[[d1 d2] se]|]; simpl; [|done].
  intros _. case_bool_decide as Hp.
  - case_bool_decide as Hl.
    + rewrite write_ses_text, write_prefix_guarded by (by destruct (c_ses st)).
      simpl. eexists _, _. split; [reflexivity |]. simpl. apply app_assoc_s.
    + simpl. eexists _, "". split; [reflexivity |]. simpl. by rewrite app_nil_r_s.
  - eexists _, "". split; [reflexivity |]. simpl. by rewrite app_nil_r_s.
Qed.

Lemma loop_total d st lines :
  Forall (λ l, is_ok (read_fields l) = true) lines →
  ∃ st' w, loop d st lines = Ok st' ∧ fout st' = fout st +:+ w.
Proof.
  intros H. revert st. induction H as [|x lines Hx _ IH]; intros st; simpl.
  - exists st, "". by rewrite app_nil_r_s.
  - destruct (loop_body_total d st x Hx) as (st1 & w1 & -> & Hw1). simpl.
    destruct (IH st1) as (st2 & w2 & -> & Hw2).
    exists st2, (w1 +:+ w2). split; [reflexivity |].
    by rewrite Hw2, Hw1, app_assoc_s.
Qed.

(** The state after the last line names that line's pair. *)
Lemma loop_last_names d st lines final st' :
  loop d st (lines ++ [final]) = Ok st' →
  ∃ d1 d2 se, read_fields final = Ok (d1, d2, se) ∧
    drug1 st' = Some d1 ∧ drug2 st' = Some d2 ∧
    p_drugpair st' = d_pair_of d1 d2 ∧ c_ses st' ≠ [].
Proof.
  rewrite loop_app. destruct (loop d st lines) as [st1|]; simpl; [|done].
  destruct (loop_body d st1 final) as [st2|] eqn:Hb; simpl; [|done].
  intros [= <-]. by eapply loop_body_names.
Qed.

(** *** The claims on [export_tsui] *)

(** C8. When a completed group is flushed because the first line of the next
    group was read, the names and codes of the written prefix are those of
    that next line ([d1], [d2], [c1], [c2]), whose pair differs from the pair
    [p_drugpair st] the flushed side effects [c_ses st] were collected for.
    The flush after the loop writes the prefix of the names [f1], [f2] of the
    last line read, which is the pair of the final group itself. *)
Theorem export_tsui_prefix_names_next_group
    (d : gmap string string) (pre post : list string) (line : string)
    (st : locals) (d1 d2 se c1 c2 : string) :
  pre ≠ [] →
  loop d init pre = Ok st →
  read_fields line = Ok (d1, d2, se) →
  d_pair_of d1 d2 ≠ p_drugpair st →
  d !! d1 = Some c1 →
  d !! d2 = Some c2 →
  Forall (λ l, is_ok (read_fields l) = true) post →
  ∃ st_end final f1 f2 fse between,
    loop d init (pre ++ line :: post) = Ok st_end ∧
    fout st_end =
      fout st +:+ (d1 +:+ "|" +:+ d2 +:+ "|" +:+ c1 +:+ "|" +:+ c2 +:+ "|")
              +:+ ses_text (c_ses st) +:+ between ∧
    last (line :: post) = Some final ∧
    read_fields final = Ok (f1, f2, fse) ∧
    p_drugpair st_end = d_pair_of f1 f2 ∧
    export_tsui d (pre ++ line :: post) =
      Ok (fout st_end +:+ guarded_prefix d f1 f2 +:+ ses_text (c_ses st_end)).
Proof.
  intros Hpre Hloop Hf Hp H1 H2 Hpost.
  pose proof (loop_init_in_group _ _ _ Hpre Hloop) as (_ & _ & _ & _ & _ & Hne).
  pose proof (loop_body_flush d st line d1 d2 se Hf Hne Hp) as Hflush.
  rewrite (guarded_prefix_found _ _ _ _ _ H1 H2) in Hflush.
  set (st1 := Locals _ _ _ _ _) in Hflush.
  destruct (loop_total d st1 post Hpost) as (st_end & between & Hend & Hout).
  assert (loop d init (pre ++ line :: post) = Ok st_end) as Hall.
  { rewrite loop_app, Hloop. simpl. by rewrite Hflush. }
  assert (is_Some (last (line :: post))) as [final Hlast] by (by apply last_is_Some).
  pose proof Hlast as [body Hbody]%last_Some.
  pose proof Hall as Hnames. rewrite Hbody, app_assoc in Hnames.
  apply loop_last_names in Hnames as (f1 & f2 & fse & Hff & Hd1 & Hd2 & Hpair & Hne').
  exists st_end, final, f1, f2, fse, between. repeat split; try done.
  - rewrite Hout. subst st1. simpl. by rewrite !app_assoc_s.
  - unfold export_tsui. rewrite Hall. simpl. by apply write_last_in_group.
Qed.

(** C9. Both flushes of a group (on a line of the next group, and after the
    loop) write the side-effect list [ses_text (c_ses st)] in every case and
    put the prefix before it only when both lookups succeed; with a failed
    lookup the group's text is the bare side-effect line. *)
Theorem export_tsui_ses_written_unconditionally
    (d : gmap string string) (lines : list string) (st : locals) :
  lines ≠ [] →
  loop d init lines = Ok st →
  (∃ f1 f2, drug1 st = Some f1 ∧ drug2 st = Some f2 ∧
     export_tsui d lines =
       Ok (fout st +:+
           (if lookup_ok d f1 && lookup_ok d f2
            then prefix_text f1 f2 (get_dict d f1 (PyInt (-1))) (get_dict d f2 (PyInt (-1)))
            else "") +:+ ses_text (c_ses st))) ∧
  (∀ line d1 d2 se,
     read_fields line = Ok (d1, d2, se) →
     d_pair_of d1 d2 ≠ p_drugpair st →
     ∃ st', loop d init (lines ++ [line]) = Ok st' ∧
       fout st' =
         fout st +:+
           (if lookup_ok d d1 && lookup_ok d d2
            then prefix_text d1 d2 (get_dict d d1 (PyInt (-1))) (get_dict d d2 (PyInt (-1)))
            else "") +:+ ses_text (c_ses st) ∧
       (lookup_ok d d1 = false ∨ lookup_ok d d2 = false →
        fout st' = fout st +:+ ses_text (c_ses st))) ∧
  ses_text (c_ses st) ≠ "".
Proof.
  intros Hne Hloop.
  pose proof (loop_init_in_group _ _ _ Hne Hloop) as (f1 & f2 & Hd1 & Hd2 & _ & Hses).
  split; [|split].
  - exists f1, f2. repeat split; try done.
    unfold export_tsui. rewrite Hloop. simpl. by apply write_last_in_group.
  - intros line d1 d2 se Hf Hp.
    pose proof (loop_body_flush d st line d1 d2 se Hf Hses Hp) as Hflush.
    eexists. rewrite loop_app, Hloop. simpl. rewrite Hflush. simpl.
    split; [reflexivity |]. split; [reflexivity |].
    intros Hmiss. by rewrite (guarded_prefix_missing _ _ _ Hmiss).
  - unfold ses_text. destruct (join "," (c_ses st)); done.
Qed.

(** X1. The side effect that opens a group after a flush is not the one of the
    line read when the flushed group had two entries or more: the loop of
    line 39 has rebound [se] to the last but one entry of the flushed
    group. *)
Theorem flush_rebinds_se (d : gmap string string) (st : locals) (line : string)
    (d1 d2 se a b : string) (l : list string) :
  read_fields line = Ok (d1, d2, se) →
  d_pair_of d1 d2 ≠ p_drugpair st →
  c_ses st = (l ++ [a; b])%list →
  ∃ st', loop_body d st line = Ok st' ∧ c_ses st' = [a].
Proof.
  intros Hf Hp Hc.
  rewrite (loop_body_flush d st line d1 d2 se Hf) by (rewrite ?Hc; by destruct l).
  eexists. split; [reflexivity |]. simpl. f_equal.
  unfold se_after. rewrite Hc.
  replace (l ++ [a; b])%list with ((l ++ [a]) ++ [b])%list by (by rewrite <- app_assoc).
  by rewrite removelast_last, last_snoc.
Qed.

Definition bank_example : gmap string string :=
  {[ "aspirin" := "DB00945"; "warfarin" := "DB00682"; "ibuprofen" := "DB01050" ]}.

Definition tsui_example : list string :=
  [ "aspirin,warfarin,bleeding" +:+ nl;
    "aspirin,warfarin,nausea" +:+ nl;
    "aspirin,warfarin,rash" +:+ nl;
    "ibuprofen,warfarin,ulcer" +:+ nl;
    "ibuprofen,warfarin,anaemia" +:+ nl;
    "ibuprofen,placebo,headache" +:+ nl ].

(** The text written for [tsui_example]: the first group (aspirin and
    warfarin) is written under the names and codes of ibuprofen and warfarin,
    the second under no prefix, as is the last. *)
Example export_tsui_example :
  export_tsui bank_example tsui_example =
    Ok ("ibuprofen|warfarin|DB01050|DB00682|bleeding,nausea,rash" +:+ nl +:+
        "nausea,anaemia" +:+ nl +:+
        "nausea" +:+ nl).
Proof. vm_compute. reflexivity. Qed.

Lemma export_tsui_prefix_names_next_group_witness :
  ∃ st_end final f1 f2 fse between,
    loop bank_example init tsui_example = Ok st_end ∧
    fout st_end =
      "" +:+ ("ibuprofen" +:+ "|" +:+ "warfarin" +:+ "|" +:+ "DB01050" +:+ "|" +:+ "DB00682" +:+ "|")
         +:+ ses_text ["bleeding"; "nausea"; "rash"] +:+ between ∧
    last (drop 3 tsui_example) = Some final ∧
    read_fields final = Ok (f1, f2, fse) ∧
    p_drugpair st_end = d_pair_of f1 f2 ∧
    export_tsui bank_example tsui_example =
      Ok (fout st_end +:+ guarded_prefix bank_example f1 f2 +:+ ses_text (c_ses st_end)).
Proof.
  apply (export_tsui_prefix_names_next_group bank_example
           (take 3 tsui_example) (drop 4 tsui_example)
           ("ibuprofen,warfarin,ulcer" +:+ nl)
           {| p_drugpair := "aspirin_warfarin";
              c_ses := ["bleeding"; "nausea"; "rash"];
              drug1 := Some "aspirin"; drug2 := Some "warfarin"; fout := "" |}
           "ibuprofen" "warfarin" "ulcer" "DB01050" "DB00682").
  - discriminate.
  - vm_compute. reflexivity.
  - vm_compute. reflexivity.
  - vm_compute. discriminate.
  - vm_compute. reflexivity.
  - vm_compute. reflexivity.
  - repeat constructor.
Defined.

Lemma export_tsui_ses_written_unconditionally_witness :
  export_tsui bank_example (take 5 tsui_example) =
    Ok ("ibuprofen|warfarin|DB01050|DB00682|bleeding,nausea,rash" +:+ nl +:+
        "ibuprofen|warfarin|DB01050|DB00682|nausea,anaemia" +:+ nl) ∧
  ∃ st', loop bank_example init (take 5 tsui_example ++ ["ibuprofen,placebo,headache" +:+ nl]) = Ok st' ∧
    fout st' = "ibuprofen|warfarin|DB01050|DB00682|bleeding,nausea,rash" +:+ nl +:+
               "nausea,anaemia" +:+ nl.
Proof.
  pose proof (export_tsui_ses_written_unconditionally bank_example (take 5 tsui_example)
           {| p_drugpair := "ibuprofen_warfarin";
              c_ses := ["nausea"; "anaemia"];
              drug1 := Some "ibuprofen"; drug2 := Some "warfarin";
              fout := "ibuprofen|warfarin|DB01050|DB00682|bleeding,nausea,rash" +:+ nl |}
           ltac:(discriminate) ltac:(vm_compute; reflexivity)) as (Hlast & Hnext & _).
  split.
  - destruct Hlast as (f1 & f2 & [= <-] & [= <-] & ->). vm_compute. reflexivity.
  - destruct (Hnext ("ibuprofen,placebo,headache" +:+ nl) "ibuprofen" "placebo" "headache"
                ltac:(vm_compute; reflexivity) ltac:(vm_compute; discriminate))
      as (st' & Hl & _ & Hmiss).
    exists st'. split; [exact Hl |].
    rewrite Hmiss by (right; vm_compute; reflexivity). vm_compute. reflexivity.
Defined.

Lemma flush_rebinds_se_witness :
  ∃ st', loop_body bank_example
           {| p_drugpair := "aspirin_warfarin";
              c_ses := ["bleeding"; "nausea"; "rash"];
              drug1 := Some "aspirin"; drug2 := Some "warfarin"; fout := "" |}
           ("ibuprofen,warfarin,ulcer" +:+ nl) = Ok st' ∧
         c_ses st' = ["nausea"].
Proof.
  apply (flush_rebinds_se bank_example _ _ "ibuprofen" "warfarin" "ulcer"
           "nausea" "rash" ["bleeding"]).
  - vm_compute. reflexivity.
  - vm_compute. discriminate.
  - reflexivity.
Defined.

(** *** Further properties of [export_tsui] *)

Lemma read_fields_raise line e : read_fields line = Raise e → e = IndexError.
Proof.
  unfold read_fields, getitem.
  destruct (_ !! 0%nat); simpl; [|congruence].
  destruct (_ !! 1%nat); simpl; [|congruence].
  destruct (_ !! 2%nat); simpl; congruence.
Qed.

Lemma loop_body_raise d st line :
  is_ok (read_fields line) = false → loop_body d st line = Raise IndexError.
Proof.
  unfold loop_body. destruct (read_fields line) as [f|e] eqn:Hf; [done |].
  intros _. simpl. by rewrite (read_fields_raise line e Hf).
Qed.

Lemma loop_raise_or_ok d lines st :
  (loop d st lines = Raise IndexError ∧
   ¬ Forall (λ l, is_ok (read_fields l) = true) lines) ∨
  (Forall (λ l, is_ok (read_fields l) = true) lines ∧ ∃ st', loop d st lines = Ok st').
Proof.
  revert st. induction lines as [|x lines IH]; intros st; simpl.
  { right. split; [constructor | eauto]. }
  destruct (is_ok (read_fields x)) eqn:Hx.
  - destruct (loop_body_total d st x Hx) as (st1 & w & -> & _). simpl.
    destruct (IH st1) as [[Hr Hn] | [Hall Hok]].
    + left. split; [done |]. intros Hall. apply Hn. by inversion Hall.
    + right. split; [by constructor | done].
  - left. rewrite loop_body_raise by done. split; [done |].
    intros Hall. inversion Hall as [|? ? Hx']. congruence.
Qed.

(** X2. [export_tsui] returns exactly when there is a line after the header
    and every line has three comma-separated fields. Without any line it
    raises [NameError] (the loop variables were never bound); with a shorter
    line it raises [IndexError]. *)
Theorem export_tsui_errors (d : gmap string string) (lines : list string) :
  (lines = [] → export_tsui d lines = Raise NameError) ∧
  (lines ≠ [] → Forall (λ l, is_ok (read_fields l) = true) lines →
   is_ok (export_tsui d lines) = true) ∧
  (¬ Forall (λ l, is_ok (read_fields l) = true) lines →
   export_tsui d lines = Raise IndexError).
Proof.
  split; [|split].
  - by intros ->.
  - intros Hne Hall. unfold export_tsui.
    destruct (loop_raise_or_ok d lines init) as [[_ Hn] | [_ [st Hst]]]; [done |].
    rewrite Hst. simpl.
    destruct (loop_init_in_group d lines st Hne Hst) as (d1 & d2 & H1 & H2 & _ & Hses).
    by rewrite (write_last_in_group d st d1 d2).
  - intros Hn. unfold export_tsui.
    destruct (loop_raise_or_ok d lines init) as [[-> _] | [Hall _]]; done.
Qed.

Lemma d_pair_of_nonempty d1 d2 : d_pair_of d1 d2 ≠ "".
Proof. unfold d_pair_of. by destruct d1. Qed.

(** Lines of the current group only extend its list of side effects. *)
Lemma loop_same_pair d P lines fs st :
  Forall2 (λ l f, read_fields l = Ok f) lines fs →
  Forall (λ f, d_pair_of f.1.1 f.1.2 = P) fs →
  p_drugpair st = P →
  ∃ st', loop d st lines = Ok st' ∧
    c_ses st' = (c_ses st ++ fs.*2)%list ∧ fout st' = fout st ∧ p_drugpair st' = P.
Proof.
  intros H. revert st. induction H as [|l [[d1 d2] se] lines fs Hl H IH];
    intros st Hall Hp; simpl.
  { exists st. by rewrite app_nil_r. }
  inversion Hall as [|? ? Hf Hall']; subst. simpl in *.
  unfold loop_body. rewrite Hl. simpl.
  rewrite bool_decide_false by (intros Hne; by apply Hne).
  simpl. destruct (IH (Locals (p_drugpair st) (c_ses st ++ [se]) (Some d1) (Some d2) (fout st)))
    as (st' & -> & Hc & Ho & Hp'); [done | done |].
  exists st'. split; [done |]. simpl in *. by rewrite Hc, <- app_assoc.
Qed.

(** The first group is collected as it stands in the file. *)
Lemma loop_first_group d P lines fs :
  lines ≠ [] →
  Forall2 (λ l f, read_fields l = Ok f) lines fs →
  Forall (λ f, d_pair_of f.1.1 f.1.2 = P) fs →
  ∃ st, loop d init lines = Ok st ∧
    c_ses st = fs.*2 ∧ fout st = "" ∧ p_drugpair st = P.
Proof.
  intros Hne H Hall. destruct H as [|l [[d1 d2] se] lines fs Hl H]; [done |].
  inversion Hall as [|? ? Hf Hall']; subst. simpl in *.
  unfold loop_body. rewrite Hl. simpl.
  rewrite bool_decide_true by apply d_pair_of_nonempty. simpl.
  destruct (loop_same_pair d (d_pair_of d1 d2) lines fs
              (Locals (d_pair_of d1 d2) [se] (Some d1) (Some d2) "") H Hall' eq_refl)
    as (st & -> & Hc & Ho & Hp).
  by exists st.
Qed.

(** X3. A file whose lines all carry the same drug pair is exported as one
    line: the prefix of that pair (when both codes are known) followed by
    the side effects of all lines, in their order. *)
Theorem export_tsui_single_group (d : gmap string string) (lines : list string)
    (fs : list (string * string * string)) (P : string) :
  lines ≠ [] →
  Forall2 (λ l f, read_fields l = Ok f) lines fs →
  Forall (λ f, d_pair_of f.1.1 f.1.2 = P) fs →
  ∃ f1 f2 se,
    last fs = Some (f1, f2, se) ∧
    export_tsui d lines = Ok (guarded_prefix d f1 f2 +:+ ses_text (fs.*2)).
Proof.
  intros Hne H Hall.
  destruct (loop_first_group d P lines fs Hne H Hall) as (st & Hst & Hc & Ho & Hp).
  assert (is_Some (last lines)) as [final [body ->]%last_Some] by (by apply last_is_Some).
  apply Forall2_app_inv_l in H as (fbody & ffinal & _ & Hfin & ->).
  inversion Hfin as [|? [[f1 f2] se] ? ? Hr Hnil]; subst. inversion Hnil; subst.
  destruct (loop_last_names d init body final st Hst)
    as (g1 & g2 & gse & Hr' & H1 & H2 & _ & Hses).
  assert (g1 = f1 ∧ g2 = f2) as [-> ->] by (split; congruence).
  exists f1, f2, se. split; [by rewrite last_snoc |].
  unfold export_tsui. rewrite Hst. simpl.
  rewrite (write_last_in_group d st f1 f2) by done.
  by rewrite Ho, Hc.
Qed.

(** X4. The first line written lists the side effects of the first group of
    the file exactly as the file has them, whatever follows; its prefix is
    that of the line that opens the second group. *)
Theorem export_tsui_first_line (d : gmap string string) (g1 post : list string)
    (fs1 : list (string * string * string)) (P line d1 d2 se : string) :
  g1 ≠ [] →
  Forall2 (λ l f, read_fields l = Ok f) g1 fs1 →
  Forall (λ f, d_pair_of f.1.1 f.1.2 = P) fs1 →
  read_fields line = Ok (d1, d2, se) →
  d_pair_of d1 d2 ≠ P →
  Forall (λ l, is_ok (read_fields l) = true) post →
  ∃ rest,
    export_tsui d (g1 ++ line :: post) =
      Ok (guarded_prefix d d1 d2 +:+ ses_text (fs1.*2) +:+ rest).
Proof.
  intros Hne H Hall Hl Hp Hpost.
  destruct (loop_first_group d P g1 fs1 Hne H Hall) as (st & Hst & Hc & Ho & HP).
  assert (c_ses st ≠ []) as Hses.
  { rewrite Hc. destruct H; [done | by simpl]. }
  pose proof (loop_body_flush d st line d1 d2 se Hl Hses) as Hflush.
  rewrite HP in Hflush. specialize (Hflush Hp).
  set (st1 := Locals _ _ _ _ _) in Hflush.
  destruct (loop_total d st1 post Hpost) as (st2 & w & Hend & Hout).
  assert (loop d init (g1 ++ line :: post) = Ok st2) as Hrun.
  { rewrite loop_app, Hst. simpl. by rewrite Hflush. }
  assert (in_group st2) as (e1 & e2 & H1 & H2 & _ & Hses2).
  { eapply loop_in_group; [|exact Hend]. by exists d1, d2. }
  unfold export_tsui. rewrite Hrun. simpl.
  rewrite (write_last_in_group d st2 e1 e2) by done.
  eexists. rewrite Hout. subst st1. simpl. rewrite Ho, Hc.
  change ("" +:+ guarded_prefix d d1 d2 +:+ ses_text fs1.*2)
    with (guarded_prefix d d1 d2 +:+ ses_text fs1.*2).
  rewrite !app_assoc_s. reflexivity.
Qed.

Lemma export_tsui_single_group_witness :
  ∃ f1 f2 se,
    last [("aspirin", "warfarin", "bleeding"); ("aspirin", "warfarin", "nausea")]
      = Some (f1, f2, se) ∧
    export_tsui bank_example (take 2 tsui_example) =
      Ok (guarded_prefix bank_example f1 f2 +:+ ses_text ["bleeding"; "nausea"]).
Proof.
  apply (export_tsui_single_group bank_example (take 2 tsui_example)
           [("aspirin", "warfarin", "bleeding"); ("aspirin", "warfarin", "nausea")]
           "aspirin_warfarin").
  - discriminate.
  - repeat constructor.
  - repeat constructor.
Defined.

Lemma export_tsui_first_line_witness :
  ∃ rest,
    export_tsui bank_example tsui_example =
      Ok (guarded_prefix bank_example "ibuprofen" "warfarin" +:+
          ses_text ["bleeding"; "nausea"; "rash"] +:+ rest).
Proof.
  apply (export_tsui_first_line bank_example (take 3 tsui_example) (drop 4 tsui_example)
           [("aspirin", "warfarin", "bleeding"); ("aspirin", "warfarin", "nausea");
            ("aspirin", "warfarin", "rash")]
           "aspirin_warfarin" ("ibuprofen,warfarin,ulcer" +:+ nl)
           "ibuprofen" "warfarin" "ulcer").
  - discriminate.
  - repeat constructor.
  - repeat constructor.
  - vm_compute. reflexivity.
  - vm_compute. discriminate.
  - repeat constructor.
Defined.

(** *** [load_drug_bank] *)

(** Line 12-13: the name and the code a line gives, its first and fifth
    field; a line with fewer than five fields raises. *)
Definition bank_fields (line : string) : result (string * string) :=
  let parts := split_str "||" (strip line) in
  code ← getitem parts 4;
  name ← getitem parts 0;
  Ok (name, code).

Fixpoint load_drug_bank_loop (lines : list string) (d : gmap string string)
    : result (gmap string string) :=
  match lines with
  | [] => Ok d
  | line :: lines' =>
      '(name, code) ← bank_fields line;
      load_drug_bank_loop lines' (<[name := code]> d)
  end.

(** [load_drug_bank] on the lines of the drug-bank file. *)
Definition load_drug_bank (lines : list string) : result (gmap string string) :=
  load_drug_bank_loop lines ∅.

(** The codes the file gives for the name [k], in the order of the lines. *)
Definition codes_of (k : string) (kvs : list (string * string)) : list string :=
  omap (λ kv, if decide (kv.1 = k) then Some kv.2 else None) kvs.

Lemma load_drug_bank_loop_lookup lines kvs d0 :
  Forall2 (λ l kv, bank_fields l = Ok kv) lines kvs →
  ∃ d, load_drug_bank_loop lines d0 = Ok d ∧
    ∀ k, d !! k = match last (codes_of k kvs) with
                  | Some code => Some code
                  | None => d0 !! k
                  end.
Proof.
  intros H. revert d0. induction H as [|l [name code] lines kvs Hl H IH]; intros d0; simpl.
  { by exists d0. }
  rewrite Hl. simpl. destruct (IH (<[name := code]> d0)) as (d & -> & Hd).
  exists d. split; [done |]. intros k. rewrite Hd. unfold codes_of. simpl.
  destruct (decide (name = k)) as [-> | Hne].
  - rewrite last_cons. destruct (last _); [done |]. by rewrite lookup_insert_eq.
  - destruct (last _); [done |]. by rewrite lookup_insert_ne.
Qed.

(** X5. When every line of the drug-bank file has five fields,
    [load_drug_bank] returns, and the code it gives for a name is the fifth
    field of the last line that starts with that name; a name no line starts
    with is not a key. *)
Theorem load_drug_bank_last_line_wins (lines : list string)
    (kvs : list (string * string)) :
  Forall2 (λ l kv, bank_fields l = Ok kv) lines kvs →
  ∃ d, load_drug_bank lines = Ok d ∧ ∀ k, d !! k = last (codes_of k kvs).
Proof.
  intros H. destruct (load_drug_bank_loop_lookup lines kvs ∅ H) as (d & Hd & Hk).
  exists d. split; [done |]. intros k. rewrite Hk.
  by destruct (last (codes_of k kvs)).
Qed.

(** X6. A line of the drug-bank file with fewer than five fields stops
    [load_drug_bank] with [IndexError]. *)
Lemma load_drug_bank_short_line pre line post :
  Forall (λ l, is_ok (bank_fields l) = true) pre →
  is_ok (bank_fields line) = false →
  load_drug_bank (pre ++ line :: post) = Raise IndexError.
Proof.
  unfold load_drug_bank. generalize (∅ : gmap string string).
  induction pre as [|l pre IH]; intros d Hpre Hline; simpl.
  - revert Hline. unfold bank_fields, getitem.
    destruct (_ !! 4%nat); simpl; [|done]. by destruct (_ !! 0%nat).
  - inversion Hpre as [|? ? Hl Hpre']; subst.
    destruct (bank_fields l) as [[name code]|]; [|done]. simpl. by apply IH.
Qed.

Definition bank_lines_example : list string :=
  [ "aspirin||x||y||z||DB00001" +:+ nl;
    "warfarin||x||y||z||DB00682" +:+ nl;
    "aspirin||x||y||z||DB00945" +:+ nl ].

Lemma load_drug_bank_last_line_wins_witness :
  ∃ d, load_drug_bank bank_lines_example = Ok d ∧
       ∀ k, d !! k = last (codes_of k [("aspirin", "DB00001"); ("warfarin", "DB00682");
                                       ("aspirin", "DB00945")]).
Proof.
  apply (load_drug_bank_last_line_wins bank_lines_example
           [("aspirin", "DB00001"); ("warfarin", "DB00682"); ("aspirin", "DB00945")]).
  repeat constructor.
Defined.

Example load_drug_bank_example :
  (λ d, (d !! "aspirin", d !! "warfarin", d !! "placebo")) <$> load_drug_bank bank_lines_example
  = Ok (Some "DB00945", Some "DB00682", None).
Proof. vm_compute. reflexivity. Qed.

Lemma load_drug_bank_short_line_witness :
  load_drug_bank (take 2 bank_lines_example ++ ("ibuprofen||x||y" +:+ nl) :: []) =
    Raise IndexError.
Proof.
  apply (load_drug_bank_short_line (take 2 bank_lines_example) ("ibuprofen||x||y" +:+ nl) []).
  - repeat constructor.
  - vm_compute. reflexivity.
Defined.

End Tsui.

(** ** [src/postProcessing/drugsComMatching.py] *)

Module DrugsCom.
Import Py.

#[local] Set Warnings "-register-all".

(** A decoded JSON value, as [json.loads] returns it; a number carries its
    Python rendering. *)
Inductive json : Type :=
  | JNull
  | JBool (b : bool)
  | JNum (repr : string)
  | JStr (s : string)
  | JArr (items : list json)
  | JObj (fields : list (string * json)).

(** What the scraping code reads of an element found in a parsed page: its
    attributes, its text, and the texts of the paragraphs below it
    ([findAll("p")]). *)
Record tag : Type := Tag {
  tag_attrs : list (string * string);
  tag_text : string;
  tag_p_texts : list string
}.

(** What the scripts do to the outside world, in order. *)
Inductive event : Type :=
  | Request (url : string)
  | Sleep (seconds : nat)
  | Save (entries : nat).

#[export] Instance event_eq_dec : EqDecision event.
Proof. solve_decision. Defined.

Definition is_request (ev : event) : bool :=
  match ev with Request _ => true | _ => false end.

(** The number of requests issued so far. *)
Definition n_requests (trace : list event) : nat :=
  length (filter (λ ev, is_request ev = true) trace).

Definition dq : string := String (ascii_of_nat 34) "".

Definition Pref_head : string :=
  "https://www.drugs.com/api/autocomplete/?id=livesearch-interaction&s=".
Definition Pref_tail : string := "&data-autocomplete=interaction".
Definition INTER_PREF : string :=
  "https://www.drugs.com/interactions-check.php?drug_list=".

(** The literal [{"categories":] that [parsex] looks for. *)
Definition JSON_HEAD : string := "{" +:+ dq +:+ "categories" +:+ dq +:+ ":".

(** The marker of a page that reports no interaction, byte for byte as the
    source file has it. *)
Definition NO_INTERACTION : string := "No drug â¬Œ drug interactions were found".

(** [Pref % drugName]. *)
Definition getRetrieveDrugURL (drugName : string) : string :=
  Pref_head +:+ drugName +:+ Pref_tail.

(** [v[key]] for a string key. *)
Definition subscript_key (v : json) (key : string) : result json :=
  match v with
  | JObj fields =>
      match list_find (λ kv, kv.1 = key) fields with
      | Some (_, (_, w)) => Ok w
      | None => Raise KeyError
      end
  | _ => Raise TypeError
  end.

(** [v[0]]. *)
Definition subscript_0 (v : json) : result json :=
  match v with
  | JArr items => getitem items 0
  | JObj _ => Raise KeyError
  | JStr (String c _) => Ok (JStr (String c ""))
  | JStr EmptyString => Raise IndexError
  | _ => Raise TypeError
  end.

(** [c[name]] for the result [c] of a [find]: [None] is not subscriptable. *)
Definition tag_getitem (c : option tag) (name : string) : result string :=
  match c with
  | None => Raise TypeError
  | Some t =>
      match list_find (λ kv, kv.1 = name) (tag_attrs t) with
      | Some (_, (_, w)) => Ok w
      | None => Raise KeyError
      end
  end.

(** [c.text] for the result [c] of a [find]: [None] has no attribute. *)
Definition tag_text_of (c : option tag) : result string :=
  match c with
  | None => Raise TypeError
  | Some t => Ok (tag_text t)
  end.

Definition tag_findAll_p (c : option tag) : result (list string) :=
  match c with
  | None => Raise TypeError
  | Some t => Ok (tag_p_texts t)
  end.

(** [srt] of [getInteractions]. *)
Definition srt (v1 v2 : string) : string * string :=
  if String.ltb v2 v1 then (v2, v1) else (v1, v2).

(** *** Pacing of the requests *)

(** Between any two requests of the trace there is a sleep of [n] seconds. *)
Definition sleep_separated (n : nat) (trace : list event) : Prop :=
  ∀ t1 u t2 u' t3,
    trace = (t1 ++ Request u :: t2 ++ Request u' :: t3)%list → Sleep n ∈ t2.

(** A scan of the trace: [pending] tells whether a request was issued and no
    sleep of [n] seconds has followed it yet; a second request in that state
    stops the scan. *)
Fixpoint paced_from (n : nat) (pending : bool) (trace : list event) : option bool :=
  match trace with
  | [] => Some pending
  | Request _ :: t => if pending then None else paced_from n true t
  | Sleep m :: t => paced_from n (if bool_decide (m = n) then false else pending) t
  | Save _ :: t => paced_from n pending t
  end.

Section Env.

(** The world outside the scripts. The first argument of the two fetching
    functions is the number of requests issued before. *)

(** [utils.getTextURL], which is not among the source files: the text
    fetched from a URL, or the exception of a failed request. *)
Variable getTextURL : nat → string → result string.
(** Lines 210-212 of [getInteractions]: the page is loaded and the inner
    HTML of its body read, or one of the three calls raises. *)
Variable browser_body : nat → string → result string.
Variable json_loads : string → result json.
(** ["%s" % v] for a JSON array or object. *)
Variable repr_container : json → string.
(** [BeautifulSoup(html, "html.parser").find(name, {"class": cls})]. *)
Variable soup_find : string → string → string → option tag.

(** ["%s" % v]. *)
Definition format_s (v : json) : string :=
  match v with
  | JNull => "None"
  | JBool true => "True"
  | JBool false => "False"
  | JNum repr => repr
  | JStr s => s
  | _ => repr_container v
  end.

(** *** [downloadDrugWebId] *)

(** The loop of lines 74-84 from the dictionary [d] loaded at the start and
    the events so far. An exception of [getTextURL] is not handled and ends
    the run. *)
Fixpoint download_loop (drugList : list string) (d : gmap string string)
    (trace : list event) : gmap string string * list event * option exn :=
  match drugList with
  | [] => (d, trace, None)
  | drug :: rest =>
      if bool_decide (is_Some (d !! drug)) then download_loop rest d trace
      else
        let urlx := getRetrieveDrugURL drug in
        match getTextURL (n_requests trace) urlx with
        | Raise e => (d, (trace ++ [Request urlx])%list, Some e)
        | Ok text =>
            let d := <[drug := text]> d in
            let trace := (trace ++ [Request urlx; Sleep 3])%list in
            let trace := if (size d mod 10 =? 0)%nat then (trace ++ [Save (size d)])%list else trace in
            download_loop rest d trace
        end
  end.

Definition downloadDrugWebId (drugList : list string) (dDrugName2Re : gmap string string)
    : gmap string string * list event * option exn :=
  match download_loop drugList dDrugName2Re [] with
  | (d, trace, None) => (d, (trace ++ [Save (size d)])%list, None)
  | r => r
  end.

(** *** [parsex] *)

(** The JSON branch of the [try] block (lines 107-117). *)
Definition parse_json (v : string) : result (list string) :=
  jsonObj ← json_loads v;
  info1 ← subscript_key jsonObj "categories";
  info1 ← subscript_0 info1;
  info1 ← subscript_key info1 "results";
  info1 ← subscript_0 info1;
  ddc_id ← subscript_key info1 "ddc_id";
  b_id ← subscript_key info1 "brand_name_id";
  Ok [format_s ddc_id; format_s b_id].

(** The HTML branch of the [try] block (lines 122-133). *)
Definition parse_html (v : string) : result (list string) :=
  let c := soup_find v "a" "ls-item" in
  txt ← tag_getitem c "onclick";
  i1 ← index "(" txt;
  i2 ← index ")" txt;
  let re := slice (i1 + 1) i2 txt in
  let parts := split "," re in
  Ok ((λ part, slice_1_m1 (strip part)) <$> parts).

(** The [try] block of [parsex]. Both branches append to [rex] in their last
    statements only, which cannot raise. *)
Definition parsex_try (v : string) : result (list string) :=
  if startswith JSON_HEAD v then parse_json v else parse_html v.

(** [rex] when the [try] statement is left: what the block appended, or
    nothing when the handler swallowed an exception. *)
Definition rex_of (v : string) : list string :=
  match parsex_try v with
  | Ok rex => rex
  | Raise _ => []
  end.

(** The text one item adds to the output file (lines 138-139). *)
Definition parsex_item (kv : string * string) : string :=
  let rex := rex_of kv.2 in
  if bool_decide (0 < length rex)%nat then kv.1 +:+ "||" +:+ join "," rex +:+ nl else "".

(** [parsex]: [d] lists the items of the stored dictionary in iteration
    order; the result is the text of the output file. *)
Fixpoint parsex (d : list (string * string)) : string :=
  match d with
  | [] => ""
  | kv :: d' => parsex_item kv +:+ parsex d'
  end.

(** *** [getInteractions] *)

Record inter_state : Type := InterState {
  dDrugPairToRe : gmap string string;
  i_trace : list event
}.

(** How the body of the loop over the prediction lines ends. *)
Inductive outcome : Type :=
  | Stored
  | Continued
  | Raised (e : exn).

(** The body of the loop (lines 194-220) on one prediction line. Only the
    parsing of the line and the three browser calls are taken to raise;
    [time.sleep] and [utils.save_obj] (an event [Save]) are not. *)
Definition interaction_body (dDrugName2WebId currentRe : gmap string string)
    (st : inter_state) (line : string) : inter_state * outcome :=
  let line := lower (strip line) in
  let parts := split "," line in
  match parts !! 0%nat, parts !! 1%nat with
  | Some d1, Some d2 =>
      let '(d1, d2) := srt (strip d1) (strip d2) in
      match dDrugName2WebId !! d1, dDrugName2WebId !! d2 with
      | Some id1, Some id2 =>
          let p := d1 +:+ "," +:+ d2 in
          if bool_decide (is_Some (currentRe !! p)) then (st, Continued)
          else
            let pair := id1 +:+ "," +:+ id2 in
            let urlx := INTER_PREF +:+ pair in
            let trace := (i_trace st ++ [Request urlx])%list in
            match browser_body (n_requests (i_trace st)) urlx with
            | Raise e =>
                ({| dDrugPairToRe := dDrugPairToRe st; i_trace := trace |}, Raised e)
            | Ok html =>
                let d := <[p := html]> (dDrugPairToRe st) in
                let trace := (trace ++ [Sleep 4])%list in
                let trace :=
                  if (size d mod 10 =? 0)%nat then (trace ++ [Save (size d)])%list else trace in
                ({| dDrugPairToRe := d; i_trace := trace |}, Stored)
            end
      | _, _ => (st, Continued)
      end
  | _, _ => (st, Raised IndexError)
  end.

(** The loop: whatever the outcome of a line, the next line is processed. *)
Fixpoint interaction_loop (dDrugName2WebId currentRe : gmap string string)
    (lines : list string) (st : inter_state) : inter_state :=
  match lines with
  | [] => st
  | line :: lines' =>
      interaction_loop dDrugName2WebId currentRe lines'
        (interaction_body dDrugName2WebId currentRe st line).1
  end.

(** [getInteractions] from the mapping of drug names to web ids, the
    responses stored by earlier runs, and the prediction lines. *)
Definition getInteractions (dDrugName2WebId stored : gmap string string)
    (lines : list string) : inter_state :=
  let st := interaction_loop dDrugName2WebId stored lines
              {| dDrugPairToRe := stored; i_trace := [] |} in
  {| dDrugPairToRe := dDrugPairToRe st;
     i_trace := (i_trace st ++ [Save (size (dDrugPairToRe st))])%list |}.

(** *** [extractInteraction] *)

(** The text one stored response adds to [PairMatching.txt] and to
    [PairNoMatching.txt] (lines 236-258). *)
Definition extract_item (kv : string * string) : string * string :=
  let '(k, v) := kv in
  let div := soup_find v "div" "interactions-reference-wrapper" in
  let '(no_matching, isNoMatch) :=
    match tag_text_of div with
    | Ok text => if contains NO_INTERACTION text then (k +:+ nl, true) else ("", false)
    | Raise _ => ("", false)
    end in
  let matching :=
    if negb isNoMatch then
      match tag_findAll_p div with
      | Ok pr => k +:+ "||" +:+ replace_char (ascii_of_nat 10) ". " (join ". " pr) +:+ nl
      | Raise _ => ""
      end
    else "" in
  (matching, no_matching).

(** [extractInteraction]: the texts of [PairMatching.txt] and of
    [PairNoMatching.txt]. *)
Fixpoint extractInteraction (d : list (string * string)) : string * string :=
  match d with
  | [] => ("", "")
  | kv :: d' =>
      let '(m, n) := extract_item kv in
      let '(ms, ns) := extractInteraction d' in
      (m +:+ ms, n +:+ ns)
  end.

(** *** Vocabulary of the statements *)





(** *** The claims on [parsex] and on the loop of [getInteractions] *)




Lemma parsex_item_text k v :
  parsex_item (k, v) =
    if bool_decide (rex_of v ≠ []) then k +:+ "||" +:+ join "," (rex_of v) +:+ nl else "".
Proof.
  unfold parsex_item. cbn [fst snd]. destruct (rex_of v) as [|r rex]; [done |].
  rewrite (bool_decide_true (_ ≠ _)) by done.
  by rewrite bool_decide_true by (cbn [length]; lia).
Qed.

Lemma parsex_app d1 d2 : parsex (d1 ++ d2) = parsex d1 +:+ parsex d2.
Proof.
  induction d1 as [|kv d1 IH]; simpl; [done |].
  by rewrite IH, app_assoc_s.
Qed.

Lemma interaction_loop_app web cur l1 l2 st :
  interaction_loop web cur (l1 ++ l2) st =
  interaction_loop web cur l2 (interaction_loop web cur l1 st).
Proof. revert st. induction l1 as [|x l1 IH]; intros st; simpl; [done | apply IH]. Qed.

(** C4. An item whose processing raises is dropped and the loop goes on
    with the next item. In [parsex] the item adds nothing to the output and
    the text of the other items is what it is without it. In [getInteractions]
    the stored responses are left as they were, at most the one request of
    the line has been issued (no second attempt, no sleep), and the loop
    continues from that state with the remaining lines. *)
Theorem raising_item_is_skipped :
  (∀ (d1 d2 : list (string * string)) (k v : string) (e : exn),
     parsex_try v = Raise e →
     parsex_item (k, v) = "" ∧
     parsex (d1 ++ (k, v) :: d2) = parsex d1 +:+ parsex d2) ∧
  (∀ (web cur : gmap string string) (st st' : inter_state)
     (line : string) (lines : list string) (e : exn),
     interaction_body web cur st line = (st', Raised e) →
     dDrugPairToRe st' = dDrugPairToRe st ∧
     (i_trace st' = i_trace st ∨ ∃ url, i_trace st' = (i_trace st ++ [Request url])%list) ∧
     interaction_loop web cur (line :: lines) st = interaction_loop web cur lines st').
Proof.
  split.
  - intros d1 d2 k v e Hraise.
    assert (parsex_item (k, v) = "") as Hitem.
    { unfold parsex_item, rex_of. simpl. by rewrite Hraise. }
    split; [done |]. rewrite parsex_app. simpl. by rewrite Hitem.
  - intros web cur st st' line lines e Hbody. simpl. rewrite Hbody. simpl.
    revert Hbody. unfold interaction_body.
    destruct (split "," (lower (strip line)) !! 0%nat) as [d1|];
      [|intros [= <-]; eauto].
    destruct (split "," (lower (strip line)) !! 1%nat) as [d2|];
      [|intros [= <-]; eauto].
    destruct (srt (strip d1) (strip d2)) as [a b].
    destruct (web !! a) as [id1|]; [|done].
    destruct (web !! b) as [id2|]; [|done].
    case_bool_decide; [done |].
    destruct (browser_body _ _) as [html|e']; [by case_match |].
    intros [= <- <-]. simpl. eauto.
Qed.


(** *** The claim on [extractInteraction] *)

Lemma extractInteraction_app d1 d2 :
  extractInteraction (d1 ++ d2) =
    ((extractInteraction d1).1 +:+ (extractInteraction d2).1,
     (extractInteraction d1).2 +:+ (extractInteraction d2).2).
Proof.
  induction d1 as [|kv d1 IH]; simpl.
  { by destruct (extractInteraction d2). }
  rewrite IH. destruct (extract_item kv) as [m n].
  destruct (extractInteraction d1) as [ms ns]. simpl.
  by rewrite !app_assoc_s.
Qed.


(** *** The claim on the sleeps *)

Lemma paced_from_app n pending t1 t2 :
  paced_from n pending (t1 ++ t2) = paced_from n pending t1 ≫= λ b, paced_from n b t2.
Proof.
  revert pending. induction t1 as [|ev t1 IH]; intros pending; [done |].
  destruct ev; simpl; [destruct pending; [done | apply IH] | apply IH | apply IH].
Qed.

Lemma paced_from_pending n t b :
  paced_from n true t = Some b → Sleep n ∉ t → b = true.
Proof.
  induction t as [|ev t IH]; simpl; [by intros [= <-] |].
  intros Hscan [Hne Hnin]%not_elem_of_cons. destruct ev; [done | | by apply IH].
  rewrite bool_decide_false in Hscan by (intros ->; done). by apply IH.
Qed.

Lemma paced_sleep_separated n pending trace :
  is_Some (paced_from n pending trace) → sleep_separated n trace.
Proof.
  intros [b Hscan] t1 u t2 u' t3 ->.
  rewrite paced_from_app in Hscan.
  destruct (paced_from n pending t1) as [b1|]; simpl in Hscan; [|done].
  destruct b1; [done |].
  rewrite paced_from_app in Hscan.
  destruct (paced_from n true t2) as [b2|] eqn:H2; simpl in Hscan; [|done].
  destruct (decide (Sleep n ∈ t2)) as [|Hnin]; [done |].
  by rewrite (paced_from_pending n t2 b2 H2 Hnin) in Hscan.
Qed.

Lemma download_loop_paced drugList d trace :
  paced_from 3 false trace = Some false →
  is_Some (paced_from 3 false (download_loop drugList d trace).1.2) ∧
  ((download_loop drugList d trace).2 = None →
   paced_from 3 false (download_loop drugList d trace).1.2 = Some false).
Proof.
  revert d trace. induction drugList as [|drug rest IH]; intros d trace Hp; simpl.
  { split; [eauto | done]. }
  case_bool_decide; [by apply IH |].
  destruct (getTextURL _ _) as [text|e]; simpl.
  - apply IH. case_match.
    + rewrite !paced_from_app, Hp. done.
    + rewrite paced_from_app, Hp. done.
  - rewrite paced_from_app, Hp. simpl. split; [eauto | done].
Qed.

Lemma interaction_body_trace web cur st line :
  match (interaction_body web cur st line).2 with
  | Stored =>
      ∃ url saves,
        i_trace (interaction_body web cur st line).1 =
          (i_trace st ++ Request url :: Sleep 4 :: saves)%list ∧
        (saves = [] ∨ ∃ entries, saves = [Save entries]) ∧
        is_ok (browser_body (n_requests (i_trace st)) url) = true
  | Continued => i_trace (interaction_body web cur st line).1 = i_trace st
  | Raised e =>
      i_trace (interaction_body web cur st line).1 = i_trace st ∨
      ∃ url,
        i_trace (interaction_body web cur st line).1 = (i_trace st ++ [Request url])%list ∧
        browser_body (n_requests (i_trace st)) url = Raise e
  end.
Proof.
  unfold interaction_body.
  destruct (split "," (lower (strip line)) !! 0%nat) as [d1|]; [|simpl; eauto].
  destruct (split "," (lower (strip line)) !! 1%nat) as [d2|]; [|simpl; eauto].
  destruct (srt (strip d1) (strip d2)) as [a b].
  destruct (web !! a) as [id1|]; [|done].
  destruct (web !! b) as [id2|]; [|done].
  case_bool_decide; [done |].
  destruct (browser_body _ _) as [html|e'] eqn:Hb; simpl; [|eauto].
  case_match; eexists _, _; rewrite <- ?app_assoc;
    (split; [reflexivity | split; [eauto | by rewrite Hb]]).
Qed.

Lemma interaction_loop_paced web cur lines st :
  (∀ k url, is_ok (browser_body k url) = true) →
  paced_from 4 false (i_trace st) = Some false →
  paced_from 4 false (i_trace (interaction_loop web cur lines st)) = Some false.
Proof.
  intros Hok. revert st. induction lines as [|line lines IH]; intros st Hp; simpl; [done |].
  apply IH. pose proof (interaction_body_trace web cur st line) as Ht.
  destruct (interaction_body web cur st line) as [st' o]. simpl in *.
  destruct o as [| |e].
  - destruct Ht as (url & saves & -> & [-> | [entries ->]] & _);
      rewrite paced_from_app, Hp; done.
  - by rewrite Ht.
  - destruct Ht as [-> | (url & _ & Hraise)]; [done |].
    specialize (Hok (n_requests (i_trace st)) url). by rewrite Hraise in Hok.
Qed.

(** C7, as the code has it. In [downloadDrugWebId] a sleep of 3 seconds
    lies between any two requests. In [getInteractions] a request whose page
    was read without an exception is followed at once by a sleep of 4
    seconds, and a request that raised is followed by nothing: the handler
    goes on to the next line. So the requests of [getInteractions] are
    separated by a sleep of 4 seconds when no request raises. *)
Theorem requests_are_paced :
  (∀ drugList dDrugName2Re,
     sleep_separated 3 (downloadDrugWebId drugList dDrugName2Re).1.2) ∧
  (∀ web cur st line,
     match (interaction_body web cur st line).2 with
     | Stored =>
         ∃ url saves,
           i_trace (interaction_body web cur st line).1 =
             (i_trace st ++ Request url :: Sleep 4 :: saves)%list ∧
           (saves = [] ∨ ∃ entries, saves = [Save entries]) ∧
           is_ok (browser_body (n_requests (i_trace st)) url) = true
     | Continued => i_trace (interaction_body web cur st line).1 = i_trace st
     | Raised e =>
         i_trace (interaction_body web cur st line).1 = i_trace st ∨
         ∃ url,
           i_trace (interaction_body web cur st line).1 = (i_trace st ++ [Request url])%list ∧
           browser_body (n_requests (i_trace st)) url = Raise e
     end) ∧
  ((∀ k url, is_ok (browser_body k url) = true) →
   ∀ web stored lines,
     sleep_separated 4 (i_trace (getInteractions web stored lines))).
Proof.
  split; [|split].
  - intros drugList d. unfold downloadDrugWebId.
    destruct (download_loop_paced drugList d []) as [Hsome Hnone]; [done |].
    destruct (download_loop drugList d []) as [[d' trace] [e|]]; simpl in *.
    + by apply (paced_sleep_separated 3 false).
    + apply (paced_sleep_separated 3 false). rewrite paced_from_app, Hnone by done. done.
  - apply interaction_body_trace.
  - intros Hok web stored lines. unfold getInteractions. simpl.
    apply (paced_sleep_separated 4 false).
    rewrite paced_from_app, (interaction_loop_paced web stored lines) by done. done.
Qed.

(** *** Further properties of the two fetching loops *)

(** The key under which the response of a prediction line is stored: the
    two names of the line, lower-cased, stripped and put in order, when both
    are known drugs. Lines 195-202. *)
Definition pair_key (web : gmap string string) (line : string) : option string :=
  let parts := split "," (lower (strip line)) in
  d1 ← parts !! 0%nat;
  d2 ← parts !! 1%nat;
  let '(a, b) := srt (strip d1) (strip d2) in
  _ ← web !! a;
  _ ← web !! b;
  Some (a +:+ "," +:+ b).

(** What the body of the loop does, by the key of the line. *)
Lemma interaction_body_by_key web cur st line :
  match pair_key web line with
  | None => (interaction_body web cur st line).1 = st
  | Some p =>
      if bool_decide (is_Some (cur !! p))
      then interaction_body web cur st line = (st, Continued)
      else
        ∃ url,
          match browser_body (n_requests (i_trace st)) url with
          | Ok html =>
              dDrugPairToRe (interaction_body web cur st line).1 =
                <[p := html]> (dDrugPairToRe st) ∧
              n_requests (i_trace (interaction_body web cur st line).1) =
                S (n_requests (i_trace st))
          | Raise _ =>
              (interaction_body web cur st line).1 =
                InterState (dDrugPairToRe st) (i_trace st ++ [Request url])
          end
  end.
Proof.
  unfold pair_key, interaction_body.
  destruct (split "," (lower (strip line)) !! 0%nat) as [d1|]; simpl; [|done].
  destruct (split "," (lower (strip line)) !! 1%nat) as [d2|]; simpl; [|done].
  destruct (srt (strip d1) (strip d2)) as [a b].
  destruct (web !! a) as [id1|]; simpl; [|done].
  destruct (web !! b) as [id2|]; simpl; [|done].
  case_bool_decide; [done |].
  exists (INTER_PREF +:+ id1 +:+ "," +:+ id2).
  destruct (browser_body _ _) as [html|e]; simpl; [|done].
  split; [done |]. unfold n_requests.
  case_match; rewrite !filter_app, !length_app; simpl; lia.
Qed.

Lemma interaction_body_keeps_stored web cur st line p v :
  cur !! p = Some v →
  dDrugPairToRe (interaction_body web cur st line).1 !! p = dDrugPairToRe st !! p.
Proof.
  intros Hp. pose proof (interaction_body_by_key web cur st line) as Hk.
  destruct (pair_key web line) as [q|]; [|by rewrite Hk].
  case_bool_decide as Hq; [by rewrite Hk |].
  destruct Hk as [url Hk]. destruct (browser_body _ _) as [html|e].
  - destruct Hk as [-> _]. apply lookup_insert_ne. intros ->. apply Hq. eauto.
  - by rewrite Hk.
Qed.

Lemma interaction_body_grows web cur st line p :
  is_Some (dDrugPairToRe st !! p) →
  is_Some (dDrugPairToRe (interaction_body web cur st line).1 !! p).
Proof.
  intros Hp. pose proof (interaction_body_by_key web cur st line) as Hk.
  destruct (pair_key web line) as [q|]; [|by rewrite Hk].
  case_bool_decide as Hq; [by rewrite Hk |].
  destruct Hk as [url Hk]. destruct (browser_body _ _) as [html|e].
  - destruct Hk as [-> _]. rewrite lookup_insert. case_decide; eauto.
  - by rewrite Hk.
Qed.

Lemma interaction_body_requests web cur st line :
  (n_requests (i_trace (interaction_body web cur st line).1) ≤ S (n_requests (i_trace st)))%nat.
Proof.
  pose proof (interaction_body_by_key web cur st line) as Hk.
  destruct (pair_key web line) as [q|]; [|rewrite Hk; lia].
  case_bool_decide as Hq; [rewrite Hk; simpl; lia |].
  destruct Hk as [url Hk]. destruct (browser_body _ _) as [html|e].
  - destruct Hk as [_ ->]. lia.
  - rewrite Hk. simpl. unfold n_requests. rewrite filter_app, length_app. simpl. lia.
Qed.

Lemma interaction_loop_keeps_stored web cur lines st p v :
  cur !! p = Some v →
  dDrugPairToRe (interaction_loop web cur lines st) !! p = dDrugPairToRe st !! p.
Proof.
  intros Hp. revert st. induction lines as [|line lines IH]; intros st; simpl; [done |].
  rewrite IH. by eapply interaction_body_keeps_stored.
Qed.

Lemma interaction_loop_requests web cur lines st :
  (n_requests (i_trace (interaction_loop web cur lines st)) ≤
   n_requests (i_trace st) + length lines)%nat.
Proof.
  revert st. induction lines as [|line lines IH]; intros st; simpl; [lia |].
  etrans; [apply IH |]. pose proof (interaction_body_requests web cur st line). lia.
Qed.

(** X9. A response stored by an earlier run is still stored, unchanged,
    after the run, and a run issues at most one request per prediction
    line. *)
Theorem getInteractions_keeps_stored (web stored : gmap string string)
    (lines : list string) :
  (∀ p v, stored !! p = Some v →
          dDrugPairToRe (getInteractions web stored lines) !! p = Some v) ∧
  (n_requests (i_trace (getInteractions web stored lines)) ≤ length lines)%nat.
Proof.
  unfold getInteractions. simpl. split.
  - intros p v Hp. by rewrite (interaction_loop_keeps_stored web stored lines _ p v).
  - unfold n_requests. rewrite filter_app, length_app. simpl.
    pose proof (interaction_loop_requests web stored lines (InterState stored [])) as H.
    unfold n_requests in H. simpl in H. lia.
Qed.

(** When no request raises, the response of every line that has a key is
    in the dictionary after the loop. *)
Lemma interaction_loop_stores web cur lines st :
  (∀ k url, is_ok (browser_body k url) = true) →
  (∀ p, is_Some (cur !! p) → is_Some (dDrugPairToRe st !! p)) →
  ∀ line p, line ∈ lines → pair_key web line = Some p →
            is_Some (dDrugPairToRe (interaction_loop web cur lines st) !! p).
Proof.
  intros Hok. revert st. induction lines as [|x lines IH]; intros st Hcur line p Hin Hkey.
  { by apply elem_of_nil in Hin. }
  simpl. assert (∀ q, is_Some (dDrugPairToRe (interaction_body web cur st x).1 !! q) →
                  is_Some (dDrugPairToRe (interaction_loop web cur lines
                                            (interaction_body web cur st x).1) !! q)) as Hgrow.
  { intros q. generalize (interaction_body web cur st x).1. clear.
    induction lines as [|y lines IH]; intros st Hq; simpl; [done |].
    apply IH. by apply interaction_body_grows. }
  apply elem_of_cons in Hin as [-> | Hin].
  - apply Hgrow. pose proof (interaction_body_by_key web cur st x) as Hk.
    rewrite Hkey in Hk. case_bool_decide as Hp.
    + rewrite Hk. simpl. by apply Hcur.
    + destruct Hk as [url Hk]. specialize (Hok (n_requests (i_trace st)) url).
      destruct (browser_body _ _) as [html|e]; [|done].
      destruct Hk as [-> _]. rewrite lookup_insert_eq. eauto.
  - apply (IH _ (λ q Hq, interaction_body_grows web cur st x q (Hcur q Hq)) line p Hin Hkey).
Qed.

(** *** Further properties of [downloadDrugWebId] *)

Lemma download_loop_keeps drugList d trace k v :
  d !! k = Some v → (download_loop drugList d trace).1.1 !! k = Some v.
Proof.
  revert d trace. induction drugList as [|drug rest IH]; intros d trace Hk; simpl; [done |].
  case_bool_decide as Hin; [by apply IH |].
  destruct (getTextURL _ _) as [text|e]; simpl; [|done].
  apply IH. rewrite lookup_insert_ne; [done |]. intros ->. apply Hin. eauto.
Qed.

Lemma download_loop_complete drugList d trace :
  (download_loop drugList d trace).2 = None →
  ∀ drug, drug ∈ drugList → is_Some ((download_loop drugList d trace).1.1 !! drug).
Proof.
  revert d trace. induction drugList as [|x rest IH]; intros d trace Hnone drug Hin.
  { by apply elem_of_nil in Hin. }
  simpl in *. case_bool_decide as Hx.
  - apply elem_of_cons in Hin as [-> | Hin]; [|by apply IH].
    destruct Hx as [v Hv]. rewrite (download_loop_keeps rest d trace x v Hv). eauto.
  - destruct (getTextURL _ _) as [text|e]; simpl in *; [|done].
    apply elem_of_cons in Hin as [-> | Hin]; [|by apply IH].
    erewrite download_loop_keeps; [eauto |]. apply lookup_insert_eq.
Qed.

Lemma download_loop_nothing_to_do drugList d trace :
  (∀ drug, drug ∈ drugList → is_Some (d !! drug)) →
  download_loop drugList d trace = (d, trace, None).
Proof.
  induction drugList as [|x rest IH]; intros Hall; simpl; [done |].
  rewrite bool_decide_true by (apply Hall; by left).
  apply IH. intros drug Hin. apply Hall. by right.
Qed.

(** X11. [downloadDrugWebId] can be resumed: a stored response is never
    replaced; a run that ends without an exception has a response for every
    drug of the list; and run again on what it returned it issues no
    request. *)
Theorem downloadDrugWebId_resumes (drugList : list string) (d : gmap string string) :
  (∀ k v, d !! k = Some v → (downloadDrugWebId drugList d).1.1 !! k = Some v) ∧
  ((downloadDrugWebId drugList d).2 = None →
   (∀ drug, drug ∈ drugList → is_Some ((downloadDrugWebId drugList d).1.1 !! drug)) ∧
   n_requests (downloadDrugWebId drugList (downloadDrugWebId drugList d).1.1).1.2 = 0).
Proof.
  unfold downloadDrugWebId.
  pose proof (download_loop_keeps drugList d []) as Hkeep.
  pose proof (download_loop_complete drugList d []) as Hall.
  destruct (download_loop drugList d []) as [[d' trace] [e|]] eqn:Hrun; simpl in *.
  - split; [done | done].
  - split; [done |]. intros _. split; [by apply Hall |].
    rewrite (download_loop_nothing_to_do drugList d' []) by (by apply Hall).
    reflexivity.
Qed.

(** *** Further properties of [parsex] and [extractInteraction] *)





Lemma find_char_app_None (c : ascii) (a b : string) :
  find_char c a = None → find_char c b = None → find_char c (a +:+ b) = None.
Proof. intros Ha Hb. by rewrite find_char_app_r, Hb. Qed.

Lemma replace_char_removes (c : ascii) (by_ s : string) :
  find_char c by_ = None → find_char c (replace_char c by_ s) = None.
Proof.
  intros Hby. induction s as [|x s IH]; simpl; [done |].
  destruct (Ascii.eqb x c) eqn:Hx.
  - by apply find_char_app_None.
  - apply find_char_app_None; [|done]. simpl. by rewrite Hx.
Qed.

(** X13. A pair written to [PairMatching.txt] takes one line of the file: the
    newlines of the paragraph texts are replaced, so the only newline of the
    record is the one that ends it (for a key without newline). *)
Theorem matching_record_is_one_line (k v : string) (div : tag) :
  soup_find v "div" "interactions-reference-wrapper" = Some div →
  contains NO_INTERACTION (tag_text div) = false →
  find_char (ascii_of_nat 10) k = None →
  ∃ record,
    extract_item (k, v) = (record +:+ nl, "") ∧
    find_char (ascii_of_nat 10) record = None.
Proof.
  intros Hdiv Hno Hk. unfold extract_item. rewrite Hdiv. simpl. rewrite Hno. simpl.
  exists (k +:+ "||" +:+
          replace_char (ascii_of_nat 10) ". " (join ". " (tag_p_texts div))).
  split; [by rewrite !app_assoc_s |].
  apply find_char_app_None; [done |].
  apply find_char_app_None; [done |].
  by apply replace_char_removes.
Qed.

End Env.

(** *** The files the scripts exchange *)



(** Lines 168-174 of [getInteractions]: the drug name of a line of the
    mapping file and the web id made of its first two values. *)
Definition web_id_fields (line : string) : result (string * string) :=
  let line := strip line in
  let parts := split_str "||" line in
  drugName ← getitem parts 0;
  part1 ← getitem parts 1;
  let info := split "," part1 in
  k1 ← getitem info 0;
  k2 ← getitem info 1;
  Ok (drugName, k1 +:+ "-" +:+ k2).

(** The loop of lines 167-174; it stands in no [try] block. *)
Fixpoint load_web_ids (lines : list string) (d : gmap string string)
    : result (gmap string string) :=
  match lines with
  | [] => Ok d
  | line :: lines' =>
      '(drugName, ids) ← web_id_fields line;
      load_web_ids lines' (<[drugName := ids]> d)
  end.

(** [getInteractions] from the lines of the mapping file. *)
Definition getInteractions_from_files (browser_body : nat → string → result string)
    (id_lines : list string) (stored : gmap string string) (lines : list string)
    : result inter_state :=
  dDrugName2WebId ← load_web_ids id_lines ∅;
  Ok (getInteractions browser_body dDrugName2WebId stored lines).

Lemma web_id_fields_raise line e : web_id_fields line = Raise e → e = IndexError.
Proof.
  unfold web_id_fields, getitem.
  repeat match goal with
         | |- context [match ?l !! ?i with _ => _ end] =>
             destruct (l !! i); simpl; [|congruence]
         end.
  congruence.
Qed.

Lemma load_web_ids_bad_line pre line post d :
  Forall (λ l, is_ok (web_id_fields l) = true) pre →
  is_ok (web_id_fields line) = false →
  load_web_ids (pre ++ line :: post) d = Raise IndexError.
Proof.
  revert d. induction pre as [|l pre IH]; intros d Hpre Hline; simpl.
  - destruct (web_id_fields line) as [?|e] eqn:Hf; [done |].
    by rewrite (web_id_fields_raise line e Hf).
  - inversion Hpre as [|? ? Hl Hpre']; subst.
    destruct (web_id_fields l) as [[name ids]|]; [|done]. simpl. by apply IH.
Qed.


(** X15. The line [parsex] writes for a drug with a single value (an [onclick]
    with one argument, or with empty parentheses) cannot be read back: the
    second value is missing, and [getInteractions] raises [IndexError] while
    it loads the mapping, before any request. *)
Theorem parsex_single_value_stops_getInteractions (json_loads : string → result json)
    (repr_container : json → string) (soup_find : string → string → string → option tag)
    (browser_body : nat → string → result string)
    (k v a : string) (pre post : list string)
    (stored : gmap string string) (lines : list string) :
  rex_of json_loads repr_container soup_find v = [a] →
  find_char "|" k = None →
  find_char "|" a = None →
  find_char "," a = None →
  lstrip (k +:+ "||" +:+ a) = k +:+ "||" +:+ a →
  lstrip (String.rev (k +:+ "||" +:+ a)) = String.rev (k +:+ "||" +:+ a) →
  Forall (λ l, is_ok (web_id_fields l) = true) pre →
  getInteractions_from_files browser_body
    (pre ++ parsex_item json_loads repr_container soup_find (k, v) :: post) stored lines =
    Raise IndexError.
Proof.
  intros Hrex Hk Hbar Ha Hl Hr Hpre. unfold getInteractions_from_files.
  rewrite load_web_ids_bad_line; [done | done |].
  rewrite parsex_item_text, Hrex, bool_decide_true by done.
  unfold web_id_fields.
  replace (k +:+ "||" +:+ join "," [a] +:+ nl) with ((k +:+ "||" +:+ a) +:+ nl)
    by (by rewrite !app_assoc_s).
  rewrite strip_line, split_str_bar by done.
  unfold getitem. cbn [lookup list_lookup mbind result_bind].
  by rewrite split_no_sep.
Qed.



(** *** Order of the two names *)

(** X17. [srt] gives the same pair whichever name comes first, and its first
    component is never the larger: the key of a pair does not depend on the
    order of the two drugs on the prediction line. *)
Theorem srt_canonical (v1 v2 : string) :
  srt v1 v2 = srt v2 v1 ∧
  String.ltb (srt v1 v2).2 (srt v1 v2).1 = false ∧
  (srt v1 v2 = (v1, v2) ∨ srt v1 v2 = (v2, v1)).
Proof.
  pose proof (String.compare_antisym v2 v1) as Ha.
  unfold srt, String.ltb. rewrite Ha.
  destruct (String.compare v1 v2) eqn:Hc; simpl; rewrite ?Ha, ?Hc; simpl.
  - apply String.compare_eq_iff in Hc as ->. eauto.
  - eauto.
  - eauto.
Qed.

(** *** A second run *)

Lemma interaction_loop_idle (browser_body : nat → string → result string)
    (web cur : gmap string string) (lines : list string) (st : inter_state) :
  (∀ line p, line ∈ lines → pair_key web line = Some p → is_Some (cur !! p)) →
  interaction_loop browser_body web cur lines st = st.
Proof.
  induction lines as [|x lines IH]; intros Hall; simpl; [done |].
  pose proof (interaction_body_by_key browser_body web cur st x) as Hk.
  destruct (pair_key web x) as [p|] eqn:Hp.
  - rewrite bool_decide_true in Hk by (apply (Hall x p); [by left | done]).
    rewrite Hk. simpl. apply IH. intros line q Hin. apply Hall. by right.
  - rewrite Hk. apply IH. intros line q Hin. apply Hall. by right.
Qed.

(** X10. With a browser that never raises, running [getInteractions] again
    on the same predictions with the responses of the first run stored
    issues no request, whatever the browser of the second run would
    answer. *)
Theorem getInteractions_second_run_is_idle
    (browser1 browser2 : nat → string → result string)
    (web stored : gmap string string) (lines : list string) :
  (∀ k url, is_ok (browser1 k url) = true) →
  n_requests (i_trace (getInteractions browser2 web
                         (dDrugPairToRe (getInteractions browser1 web stored lines))
                         lines)) = 0%nat.
Proof.
  intros Hok. unfold getInteractions at 1. cbn [i_trace].
  rewrite interaction_loop_idle; [reflexivity |].
  intros line p Hin Hkey. unfold getInteractions. cbn [dDrugPairToRe].
  exact (interaction_loop_stores browser1 web stored lines (InterState stored []) Hok
           (λ q Hq, Hq) line p Hin Hkey).
Qed.

(** *** Concrete responses *)


(** The autocomplete answer for aspirin, and its decoding. *)
Definition aspirin_json : string :=
  "{" +:+ dq +:+ "categories" +:+ dq +:+ ":[{" +:+ dq +:+ "results" +:+ dq +:+ ":[{"
      +:+ dq +:+ "ddc_id" +:+ dq +:+ ":243," +:+ dq +:+ "brand_name_id" +:+ dq +:+ ":0}]}]}".

Definition aspirin_decoded : json :=
  JObj [("categories",
         JArr [JObj [("results",
                      JArr [JObj [("ddc_id", JNum "243"); ("brand_name_id", JNum "0")]])]])].

Definition json_loads_example (v : string) : result json :=
  if bool_decide (v = aspirin_json) then Ok aspirin_decoded else Raise ValueError.

Definition repr_example (j : json) : string := "".

(** An older answer: a list of anchors. *)
Definition soup_example (html name cls : string) : option tag :=
  if bool_decide (html = "<a class='ls-item' onclick=...>warfarin</a>")
  then Some {| tag_attrs := [("class", "ls-item");
                             ("onclick", "addDrug('2311', '0', 'warfarin')")];
               tag_text := "warfarin"; tag_p_texts := [] |}
  else None.

Example parsex_example :
  parsex json_loads_example repr_example soup_example
    [("aspirin", aspirin_json);
     ("unknown", "<html></html>");
     ("warfarin", "<a class='ls-item' onclick=...>warfarin</a>")]
  = "aspirin||243,0" +:+ nl +:+ "warfarin||2311,0,warfarin" +:+ nl.
Proof. vm_compute. reflexivity. Qed.

Definition web_ids_example : gmap string string :=
  {[ "aspirin" := "243-0"; "warfarin" := "2311-0"; "ibuprofen" := "1310-0" ]}.

Definition predictions_example : list string :=
  [ "Aspirin,Warfarin,bleeding" +:+ nl; "ibuprofen,aspirin,ulcer" +:+ nl ].

(** A browser whose first page load fails and whose later ones succeed. *)
Definition browser_flaky (k : nat) (url : string) : result string :=
  match k with
  | O => Raise EnvError
  | S _ => Ok "<body>page</body>"
  end.

Definition getTextURL_example (k : nat) (url : string) : result string := Ok aspirin_json.

Example downloadDrugWebId_example :
  (downloadDrugWebId getTextURL_example ["aspirin"; "warfarin"; "aspirin"] ∅).1.2 =
    [ Request (getRetrieveDrugURL "aspirin"); Sleep 3;
      Request (getRetrieveDrugURL "warfarin"); Sleep 3;
      Save 2 ].
Proof. vm_compute. reflexivity. Qed.

Lemma raising_item_is_skipped_witness :
  (parsex_item json_loads_example repr_example soup_example ("unknown", "<html></html>") = "" ∧
   parsex json_loads_example repr_example soup_example
     ([("aspirin", aspirin_json)] ++ ("unknown", "<html></html>") :: []) =
   parsex json_loads_example repr_example soup_example [("aspirin", aspirin_json)] +:+
   parsex json_loads_example repr_example soup_example []) ∧
  (dDrugPairToRe (InterState ∅ []) = dDrugPairToRe (InterState ∅ []) ∧
   (i_trace (InterState ∅ []) = i_trace (InterState ∅ []) ∨
    ∃ url, i_trace (InterState ∅ []) = (i_trace (InterState ∅ []) ++ [Request url])%list) ∧
   interaction_loop browser_flaky web_ids_example ∅ ("aspirin" :: predictions_example)
     (InterState ∅ []) =
   interaction_loop browser_flaky web_ids_example ∅ predictions_example (InterState ∅ [])).
Proof.
  split.
  - apply (proj1 (raising_item_is_skipped browser_flaky json_loads_example repr_example
                    soup_example) _ _ "unknown" "<html></html>" TypeError).
    vm_compute. reflexivity.
  - apply (proj2 (raising_item_is_skipped browser_flaky json_loads_example repr_example
                    soup_example) web_ids_example ∅ (InterState ∅ []) (InterState ∅ [])
                    "aspirin" predictions_example IndexError).
    vm_compute. reflexivity.
Defined.


(** When the first page load fails, the second request follows the first
    with no sleep between them. *)
Lemma failed_request_is_not_followed_by_sleep :
  i_trace (getInteractions browser_flaky web_ids_example ∅ predictions_example) =
    [ Request (INTER_PREF +:+ "243-0,2311-0");
      Request (INTER_PREF +:+ "243-0,1310-0");
      Sleep 4;
      Save 1 ] ∧
  ¬ sleep_separated 4
      (i_trace (getInteractions browser_flaky web_ids_example ∅ predictions_example)).
Proof.
  assert (i_trace (getInteractions browser_flaky web_ids_example ∅ predictions_example) =
    [ Request (INTER_PREF +:+ "243-0,2311-0");
      Request (INTER_PREF +:+ "243-0,1310-0");
      Sleep 4;
      Save 1 ]) as Htrace by (vm_compute; reflexivity).
  split; [exact Htrace |].
  rewrite Htrace. intros Hsep.
  specialize (Hsep [] _ [] _ [Sleep 4; Save 1] eq_refl).
  by apply elem_of_nil in Hsep.
Qed.


(** *** Concrete runs for the further properties *)

(** A page of the interaction checker that reports an interaction. *)
Definition soup_wrapper_example (html name cls : string) : option tag :=
  if bool_decide (cls = "interactions-reference-wrapper")
  then Some {| tag_attrs := [("class", "interactions-reference-wrapper")];
               tag_text := "Major" +:+ nl +:+ "aspirin warfarin";
               tag_p_texts := ["Major"; "aspirin" +:+ nl +:+ "warfarin"] |}
  else None.

(** An answer whose anchor carries a single value. *)
Definition soup_single_example (html name cls : string) : option tag :=
  Some {| tag_attrs := [("onclick", "addDrug('2311')")];
          tag_text := "warfarin"; tag_p_texts := [] |}.

Definition browser_steady (k : nat) (url : string) : result string :=
  Ok "<body>page</body>".

Lemma matching_record_is_one_line_witness :
  ∃ record,
    extract_item soup_wrapper_example ("aspirin,warfarin", "<html>page</html>") =
      (record +:+ nl, "") ∧
    find_char (ascii_of_nat 10) record = None.
Proof.
  apply (matching_record_is_one_line soup_wrapper_example "aspirin,warfarin"
           "<html>page</html>"
           {| tag_attrs := [("class", "interactions-reference-wrapper")];
              tag_text := "Major" +:+ nl +:+ "aspirin warfarin";
              tag_p_texts := ["Major"; "aspirin" +:+ nl +:+ "warfarin"] |}).
  - reflexivity.
  - vm_compute. reflexivity.
  - vm_compute. reflexivity.
Defined.

Example extract_item_example :
  extract_item soup_wrapper_example ("aspirin,warfarin", "<html>page</html>") =
    ("aspirin,warfarin||Major. aspirin. warfarin" +:+ nl, "").
Proof. vm_compute. reflexivity. Qed.


Lemma parsex_single_value_stops_getInteractions_witness :
  getInteractions_from_files browser_steady
    ([] ++ parsex_item json_loads_example repr_example soup_single_example
             ("warfarin", "<a>warfarin</a>") :: [])
    ∅ predictions_example = Raise IndexError.
Proof.
  apply (parsex_single_value_stops_getInteractions json_loads_example repr_example
           soup_single_example browser_steady "warfarin" "<a>warfarin</a>" "2311"
           [] [] ∅ predictions_example);
    try (vm_compute; reflexivity).
  constructor.
Defined.

Lemma getInteractions_second_run_is_idle_witness :
  n_requests (i_trace (getInteractions browser_flaky web_ids_example
                         (dDrugPairToRe (getInteractions browser_steady web_ids_example ∅
                                           predictions_example))
                         predictions_example)) = 0%nat.
Proof.
  apply (getInteractions_second_run_is_idle browser_steady browser_flaky
           web_ids_example ∅ predictions_example).
  intros k url. reflexivity.
Defined.

Example getInteractions_first_run_example :
  i_trace (getInteractions browser_steady web_ids_example ∅ predictions_example) =
    [ Request (INTER_PREF +:+ "243-0,2311-0"); Sleep 4;
      Request (INTER_PREF +:+ "243-0,1310-0"); Sleep 4;
      Save 2 ].
Proof. vm_compute. reflexivity. Qed.

End DrugsCom.
